(** * simulations/qho/qho.py: the numerical core of the quantum harmonic
      oscillator simulation

    A shallow embedding of [FunctionSampler], [HilbertSpace] and
    [WaveFunction] and the properties their specification states.

    Numbers.  Python's [int] and [float] values are read as real numbers
    ([R], exact arithmetic: rounding error, overflow and NaN of IEEE doubles
    are outside the model), [complex] values as pairs of reals.  Python
    exceptions are the [Raise] results of an error monad.  The two library
    routines the program calls without defining are taken by their documented
    behaviour: [numpy.linspace] (endpoint included) is [linspace], and
    [scipy.integrate.quad] over the whole line is a member of the interface
    [Quadrature]. *)

From Stdlib Require Import String Reals Lra Lia ZArith List Bool.
From Stdlib Require Import FunctionalExtensionality.
Import ListNotations.

Local Open Scope R_scope.

(** ** Exceptions and the error monad *)

Inductive exn : Type :=
| IndexError
| AttributeError
| ZeroDivisionError
| TypeError.

Inductive result (A : Type) : Type :=
| Ok (a : A)
| Raise (e : exn).

Arguments Ok {A} a.
Arguments Raise {A} e.

Definition bind {A B : Type} (m : result A) (k : A -> result B) : result B :=
  match m with
  | Ok a => k a
  | Raise e => Raise e
  end.

Notation "x <- m ;; k" := (bind m (fun x => k))
  (at level 61, m at next level, right associativity).

(** [[g(n) for n in l]]: the elements are computed from left to right and
    the first exception ends the comprehension. *)
Fixpoint comprehension {A B : Type} (g : A -> result B) (l : list A)
  : result (list B) :=
  match l with
  | [] => Ok []
  | a :: l' =>
      b <- g a ;;
      bs <- comprehension g l' ;;
      Ok (b :: bs)
  end.

(** ** Python built-ins *)

Module Py.

(** [round(x)] with one argument: the nearest integer, ties to the even
    one. *)
Definition round (x : R) : Z :=
  let f := Int_part x in
  let d := x - IZR f in
  if Rlt_dec d (/ 2) then f
  else if Rlt_dec (/ 2) d then (f + 1)%Z
  else if Z.even f then f else (f + 1)%Z.

(** [l[i]]: a negative index counts from the end; anything outside
    [-len(l) .. len(l) - 1] raises [IndexError]. *)
Definition getitem {A : Type} (l : list A) (i : Z) : result A :=
  let n := Z.of_nat (length l) in
  let j := if (i <? 0)%Z then (i + n)%Z else i in
  if (j <? 0)%Z then Raise IndexError
  else match nth_error l (Z.to_nat j) with
       | Some a => Ok a
       | None => Raise IndexError
       end.

(** [range(n)] *)
Definition range (n : nat) : list nat := seq 0 n.

End Py.

(** ** numpy.linspace

    [numpy.linspace(start, stop, num)] with its default [endpoint=True]:
    [num] points with step [(stop - start) / (num - 1)], the first at
    [start] and the last at [stop]. *)
Definition linspace (start stop : R) (num : nat) : list R :=
  let step := (stop - start) / INR (num - 1) in
  map (fun k => start + INR k * step) (Py.range num).

(** ** class FunctionSampler *)

Module FunctionSampler.
Section Sampler.

(** The type of the sampled values. *)
Context {A : Type}.

Record t : Type := Build {
  minX : R;
  maxX : R;
  range : R;
  numSamples : nat;
  domain : list R;
  image : list A
}.

(** [__init__(self, f, minX, maxX, numSamples)] *)
Definition init (f : R -> A) (minX maxX : R) (numSamples : nat) : t :=
  let domain := linspace minX maxX numSamples in
  {| minX := minX;
     maxX := maxX;
     range := maxX - minX;
     numSamples := numSamples;
     domain := domain;
     image := map f domain |}.

(** The index [__call__] reads, before the list access, in exact
    arithmetic.  The program computes the product of line 60 in doubles
    before it rounds: where the exact product lies at or next to a
    half-integer the entry read can be the neighbouring one.  [product] and
    [read] below separate the arithmetic from the rounding and the access. *)
Definition index (self : t) (x : R) : Z :=
  let x := Rmin (Rmax x (minX self)) (maxX self - 1) in
  let x := x - minX self in
  Py.round (x * (INR (numSamples self) / range self)).

(** [__call__(self, x)]; [numSamples / range] raises on a zero range. *)
Definition call (self : t) (x : R) : result A :=
  if Req_dec_T (range self) 0 then Raise ZeroDivisionError
  else Py.getitem (image self) (index self x).



End Sampler.
Arguments t A : clear implicits.
End FunctionSampler.

(** ** Complex numbers *)

Definition complex : Type := (R * R)%type.

Definition RtoC (x : R) : complex := (x, 0).
Definition Ci : complex := (0, 1).
Definition Cplus (z w : complex) : complex := (fst z + fst w, snd z + snd w).
Definition Copp (z : complex) : complex := (- fst z, - snd z).
Definition Cmult (z w : complex) : complex :=
  (fst z * fst w - snd z * snd w, fst z * snd w + snd z * fst w).
Definition Cinv (z : complex) : complex :=
  (fst z / (fst z ^ 2 + snd z ^ 2), - snd z / (fst z ^ 2 + snd z ^ 2)).
Definition Cdiv (z w : complex) : complex := Cmult z (Cinv w).

(** [numpy.absolute] and [numpy.exp] on a complex number. *)
Definition Cmod (z : complex) : R := sqrt (fst z ^ 2 + snd z ^ 2).
Definition Cexp (z : complex) : complex :=
  (exp (fst z) * cos (snd z), exp (fst z) * sin (snd z)).

(** [numpy.conj] of a float is the float itself. *)
Definition np_conj (x : R) : R := x.

(** [sum(l)]: starts from 0 and adds from the left. *)
Definition py_sum (l : list complex) : complex :=
  fold_left Cplus l (RtoC 0).

(** ** scipy.special

    [hermite(n)] is the physicists' Hermite polynomial: H_0 = 1, H_1 = 2x,
    H_(n+1) = 2x H_n - 2n H_(n-1); [hermite_pair n x] is (H_n x, H_(n+1) x).
    [factorial(n)] is n! as a float. *)
Fixpoint hermite_pair (n : nat) (x : R) : R * R :=
  match n with
  | O => (1, 2 * x)
  | S m =>
      let '(a, b) := hermite_pair m x in
      (b, 2 * x * b - 2 * INR (S m) * a)
  end.

Definition hermite (n : nat) (x : R) : R := fst (hermite_pair n x).

Definition factorial (n : nat) : R := INR (fact n).

(** ** class HilbertSpace *)

Module HilbertSpace.

(** [V] is set only when a potential is passed; [QHOBasisApprox], and with
    it the attributes [eigenbasis] and [eigenvalues], only when [basis] is
    ['QHO']. *)
Record t : Type := Build {
  dim : nat;
  V : option (R -> R);
  QHOBasisApprox : option (list (FunctionSampler.t R))
}.

(** The first value of [self.QHOBasis] (line 74), the closed form that is
    sampled into the tables. *)
Definition QHOBasis (n : nat) (x : R) : R :=
  (1 / sqrt (2 ^ n * factorial n) * Rpower PI (1 / 4))
  * exp (- x ^ 2 / 2) * hermite n x.

(** [__init__(self, dim, basis='QHO', hamiltonianPotential=None)] *)
Definition init (dim : nat) (basis : string)
    (hamiltonianPotential : option (R -> R)) : t :=
  {| dim := dim;
     V := hamiltonianPotential;
     QHOBasisApprox :=
       if String.eqb basis "QHO" then
         Some (map (fun n =>
                      FunctionSampler.init (fun x => QHOBasis n x)
                                           (-15) 15 2000)
                   (Py.range dim))
       else None |}.

(** [self.eigenbasis(n, x)], the second value of [self.QHOBasis]
    (line 82): a lookup in the n-th table. *)
Definition eigenbasis (self : t) (n : nat) (x : R) : result R :=
  match QHOBasisApprox self with
  | None => Raise AttributeError
  | Some tables =>
      match nth_error tables n with
      | None => Raise IndexError
      | Some sampler => FunctionSampler.call sampler x
      end
  end.

(** [self.eigenvalues(n)] *)
Definition eigenvalues (self : t) (n : nat) : result R :=
  match QHOBasisApprox self with
  | None => Raise AttributeError
  | Some _ => Ok (1 / 2 + INR n)
  end.

End HilbertSpace.

(** ** scipy.integrate.quad over the whole real line

    The routine is adaptive and is not embedded; what the program relies on
    is that it returns a number when the integrand never raises and that an
    integrand that raises at every point makes the call raise. *)
Record Quadrature : Type := {
  quad : (R -> result R) -> result R;
  quad_returns : forall g : R -> R, exists v, quad (fun x => Ok (g x)) = Ok v;
  quad_raises : forall (f : R -> result R) (e : exn),
      (forall x, f x = Raise e) -> quad f = Raise e
}.

(** The number [quad] returns for an integrand that never raises. *)
Definition integral (Q : Quadrature) (g : R -> R) : R :=
  match quad Q (fun x => Ok (g x)) with
  | Ok v => v
  | Raise _ => 0
  end.

(** A three-point rule, the instance used for concrete runs. *)
Definition three_point (f : R -> result R) : result R :=
  a <- f (-1) ;;
  b <- f 0 ;;
  c <- f 1 ;;
  Ok (a + b + c).

Definition three_point_rule : Quadrature.
Proof.
  refine {| quad := three_point |}.
  - intros g. eexists. reflexivity.
  - intros f e H. unfold three_point. rewrite H. reflexivity.
Defined.

(** ** class WaveFunction *)

Module WaveFunction.
Section Methods.

Variable Q : Quadrature.

(** The module-level variable [hs] (line 236). *)
Variable hs : HilbertSpace.t.

Record t : Type := Build {
  hilbert : HilbertSpace.t;
  coeff : list complex;
  evaluate : R -> R -> result complex
}.

(** [phaseFactor(self, n, t)] *)
Definition phaseFactor (hilbert : HilbertSpace.t) (n : nat) (t : R)
  : result complex :=
  e <- HilbertSpace.eigenvalues hilbert n ;;
  Ok (Cexp (Cmult (Cmult (Copp Ci) (RtoC e)) (RtoC t))).

(** [normalize(self, waveFunc)] *)
Definition normalize (waveFunc : R -> result complex) : result R :=
  v <- quad Q (fun x => w <- waveFunc x ;; Ok (Cmod w ^ 2)) ;;
  Ok (sqrt v).

(** Calling [waveFunc]; the default [None] is not callable. *)
Definition apply (waveFunc : option (R -> R)) (x : R) : result R :=
  match waveFunc with
  | Some f => Ok (f x)
  | None => Raise TypeError
  end.

(** [orthogonalBasisProjection(self, waveFunc)]: the loop runs over
    [range(hs.dim)], the integrand reads [self.hilbert]. *)
Definition orthogonalBasisProjection (hilbert : HilbertSpace.t)
    (waveFunc : option (R -> R)) : result (list complex) :=
  comprehension
    (fun n =>
       v <- quad Q (fun x =>
                      e <- HilbertSpace.eigenbasis hilbert n x ;;
                      w <- apply waveFunc x ;;
                      Ok (np_conj e * w)) ;;
       Ok (RtoC v))
    (Py.range (HilbertSpace.dim hs)).

(** The local [evaluate] of [__init__] (line 100), the superposition
    before normalization. *)
Definition superposition (hilbert : HilbertSpace.t) (coeff : list complex)
    (x t : R) : result complex :=
  terms <- comprehension
             (fun n =>
                c <- Py.getitem coeff (Z.of_nat n) ;;
                e <- HilbertSpace.eigenbasis hilbert n x ;;
                p <- phaseFactor hilbert n t ;;
                Ok (Cmult (Cmult c (RtoC e)) p))
             (Py.range (HilbertSpace.dim hilbert)) ;;
  Ok (py_sum terms).

(** [__init__(self, hilbertSpace, initWaveFunc=None, coeff=None)].  The
    one-argument [self.evaluate] that the projection branch assigns on
    line 97 is replaced on line 105 before anything reads it.  The initial
    waveform is real-valued, what [quad] integrates. *)
Definition init (hilbertSpace : HilbertSpace.t)
    (initWaveFunc : option (R -> R)) (coeff0 : option (list complex))
  : result t :=
  c <- match coeff0 with
       | Some c => Ok c
       | None => orthogonalBasisProjection hilbertSpace initWaveFunc
       end ;;
  let evaluate := fun x t => superposition hilbertSpace c x t in
  normF <- normalize (fun x => evaluate x 0) ;;
  Ok {| hilbert := hilbertSpace;
        coeff := c;
        evaluate := fun x t =>
                      v <- evaluate x t ;; Ok (Cdiv v (RtoC normF)) |}.

(** [psi.evaluate(x, t)] on the outcome of a construction. *)
Definition evaluate_at (psi : result t) (x t : R) : result complex :=
  wf <- psi ;; evaluate wf x t.

End Methods.
End WaveFunction.

(** ** class Plotter: the values of a frame

    What [animate(i)] of [plotWaveFunction2d] (lines 149-154) and of
    [plotWaveFunction3d] (lines 208-216) computes before the values are
    handed to matplotlib: the positions, the amplitudes of the wave function
    at the time of the frame, their real and imaginary parts and the
    probability densities. *)

Module Plotter.

Record frame : Type := Build {
  posValues : list R;
  reValues : list R;
  imValues : list R;
  probValues : list R
}.

(** [numpy.real], [numpy.imag] and [numpy.absolute(...) ** 2] on the list of
    amplitudes. *)
Definition np_real (zs : list complex) : list R := map fst zs.
Definition np_imag (zs : list complex) : list R := map snd zs.
Definition np_absolute_sq (zs : list complex) : list R :=
  map (fun z => Cmod z ^ 2) zs.

Definition animate (waveFunction : WaveFunction.t) (samples : nat)
    (timeFactor : R) (i : nat) : result frame :=
  let posValues := linspace (-5) 5 samples in
  amplitudeValues <-
    comprehension
      (fun x => WaveFunction.evaluate waveFunction x (timeFactor * INR i / 50))
      posValues ;;
  Ok {| posValues := posValues;
        reValues := np_real amplitudeValues;
        imValues := np_imag amplitudeValues;
        probValues := np_absolute_sq amplitudeValues |}.

(** [animate(i)] for the outcome [psi] of a construction, as the script
    passes it to the plotter. *)
Definition animate_at (psi : result WaveFunction.t) (samples : nat)
    (timeFactor : R) (i : nat) : result frame :=
  wf <- psi ;; animate wf samples timeFactor i.

End Plotter.

(** * The specification's statements

    Definitions that follow the words of the specification, to be compared
    with the program above. *)

(** DomainClamp as the specification words it: a query 100 below the
    domain returns the first stored sample, [image[0]], and a query 100
    above it the last stored sample, [image[-1]]. *)
Definition clamps_to_boundary_samples {A : Type} (s : FunctionSampler.t A)
  : Prop :=
  FunctionSampler.call s (FunctionSampler.minX s - 100)
  = Py.getitem (FunctionSampler.image s) 0
  /\ FunctionSampler.call s (FunctionSampler.maxX s + 100)
     = Py.getitem (FunctionSampler.image s) (-1).

(** The construction contract as the specification words it: [numSamples]
    points, all in the half-open interval [[minX, maxX)], and the values of
    [f] at these points stored in order. *)
Definition samples_half_open {A : Type} (f : R -> A) (minX maxX : R)
    (numSamples : nat) (s : FunctionSampler.t A) : Prop :=
  length (FunctionSampler.domain s) = numSamples
  /\ (forall p, In p (FunctionSampler.domain s) -> minX <= p < maxX)
  /\ FunctionSampler.image s = map f (FunctionSampler.domain s).

(** DegenerateNormalization as the specification words it: a normalization
    that evaluates to zero makes the construction fail with an error. *)
Definition rejects_zero_norm (Q : Quadrature) (hs H : HilbertSpace.t)
    (initWaveFunc : option (R -> R)) (coeff : list complex) : Prop :=
  WaveFunction.normalize Q (fun x => WaveFunction.superposition H coeff x 0)
  = Ok 0 ->
  exists e, WaveFunction.init Q hs H initWaveFunc (Some coeff) = Raise e.

(** The eigenfunction of the quantum harmonic oscillator with the
    normalization factor [1 / sqrt (2^n n! sqrt pi)]. *)
Definition qho_eigenfunction (n : nat) (x : R) : R :=
  1 / sqrt (2 ^ n * factorial n * sqrt PI) * exp (- x ^ 2 / 2) * hermite n x.

(** The sum of [g 0 .. g (n - 1)]. *)
Fixpoint Csum (g : nat -> complex) (n : nat) : complex :=
  match n with
  | O => RtoC 0
  | S m => Cplus (Csum g m) (g m)
  end.

(** The time evolution law:
    raw(x, t) = sum over n < dim of coeff[n] eigenbasis(n, x) exp(-i (n + 1/2) t). *)
Definition spectral_raw (dim : nat) (coeff : nat -> complex)
    (eigenbasis : nat -> R -> R) (x t : R) : complex :=
  Csum (fun n =>
          Cmult (Cmult (coeff n) (RtoC (eigenbasis n x)))
                (Cexp (Cmult (Cmult (Copp Ci) (RtoC (INR n + 1 / 2)))
                             (RtoC t))))
       dim.

(** normF = sqrt (integral of |raw(x, 0)|^2), the integral being the number
    the quadrature returns. *)
Definition spectral_normF (Q : Quadrature) (dim : nat) (coeff : nat -> complex)
    (eigenbasis : nat -> R -> R) : R :=
  sqrt (integral Q (fun x => Cmod (spectral_raw dim coeff eigenbasis x 0) ^ 2)).

(** evaluate(x, t) = raw(x, t) / normF. *)
Definition spectral_evaluate (Q : Quadrature) (dim : nat)
    (coeff : nat -> complex) (eigenbasis : nat -> R -> R) (x t : R) : complex :=
  Cdiv (spectral_raw dim coeff eigenbasis x t)
       (RtoC (spectral_normF Q dim coeff eigenbasis)).

(** The value of [eigenbasis(n, x)] where the lookup returns. *)
Definition eigenbasis_value (H : HilbertSpace.t) (n : nat) (x : R) : R :=
  match HilbertSpace.eigenbasis H n x with
  | Ok v => v
  | Raise _ => 0
  end.

(** coeff[n] = integral of conj(eigenbasis(n, x)) psi0(x), for n < dim. *)
Definition projection_coefficients (Q : Quadrature) (H : HilbertSpace.t)
    (psi0 : R -> R) : list complex :=
  map (fun n =>
         RtoC (integral Q (fun x => np_conj (eigenbasis_value H n x) * psi0 x)))
      (seq 0 (HilbertSpace.dim H)).

(** * Properties *)

(** ** The error monad *)

Lemma bind_Ok {A B : Type} (a : A) (k : A -> result B) :
  bind (Ok a) k = k a.
Proof. reflexivity. Qed.

Lemma comprehension_Ok {A B : Type} (g : A -> result B) (h : A -> B)
    (l : list A) :
  (forall a, In a l -> g a = Ok (h a)) ->
  comprehension g l = Ok (map h l).
Proof.
  induction l as [|a l IH]; intros Hg; simpl.
  - reflexivity.
  - rewrite (Hg a (or_introl eq_refl)); simpl.
    rewrite IH by (intros b Hb; apply Hg; right; exact Hb).
    reflexivity.
Qed.

Lemma comprehension_Raise {A B : Type} (g : A -> result B) (h : A -> B)
    (l1 l2 : list A) (a : A) (e : exn) :
  (forall b, In b l1 -> g b = Ok (h b)) ->
  g a = Raise e ->
  comprehension g (l1 ++ a :: l2) = Raise e.
Proof.
  induction l1 as [|b l1 IH]; intros Hg Ha; simpl.
  - rewrite Ha; reflexivity.
  - rewrite (Hg b (or_introl eq_refl)); simpl.
    rewrite IH; [reflexivity | | exact Ha].
    intros c Hc; apply Hg; right; exact Hc.
Qed.

(** ** round *)

Lemma round_bounds (x : R) :
  IZR (Py.round x) - / 2 <= x <= IZR (Py.round x) + / 2.
Proof.
  unfold Py.round.
  destruct (base_Int_part x) as [Hlo Hhi].
  destruct (Rlt_dec (x - IZR (Int_part x)) (/ 2)) as [H1|H1].
  - lra.
  - destruct (Rlt_dec (/ 2) (x - IZR (Int_part x))) as [H2|H2].
    + rewrite plus_IZR; lra.
    + destruct (Z.even (Int_part x)); [|rewrite plus_IZR]; lra.
Qed.

Lemma round_unique (x : R) (z : Z) :
  IZR z - / 2 < x < IZR z + / 2 -> Py.round x = z.
Proof.
  intros [Hlo Hhi].
  destruct (round_bounds x) as [Rlo Rhi].
  assert (H1 : (Py.round x < z + 1)%Z)
    by (apply lt_IZR; rewrite plus_IZR; lra).
  assert (H2 : (z < Py.round x + 1)%Z)
    by (apply lt_IZR; rewrite plus_IZR; lra).
  lia.
Qed.

Lemma round_between (x : R) (lo hi : Z) :
  IZR lo - / 2 < x < IZR hi + / 2 -> (lo <= Py.round x <= hi)%Z.
Proof.
  intros [Hlo Hhi].
  destruct (round_bounds x) as [Rlo Rhi].
  assert (H1 : (Py.round x < hi + 1)%Z)
    by (apply lt_IZR; rewrite plus_IZR; lra).
  assert (H2 : (lo < Py.round x + 1)%Z)
    by (apply lt_IZR; rewrite plus_IZR; lra).
  lia.
Qed.

(** ** List access *)

Lemma getitem_in_range {A : Type} (l : list A) (i : Z) :
  (0 <= i < Z.of_nat (length l))%Z ->
  exists v, Py.getitem l i = Ok v /\ nth_error l (Z.to_nat i) = Some v.
Proof.
  intros [Hlo Hhi]. unfold Py.getitem.
  destruct (i <? 0)%Z eqn:Hneg; [apply Z.ltb_lt in Hneg; lia|].
  rewrite Hneg.
  destruct (nth_error l (Z.to_nat i)) as [v|] eqn:Hnth.
  - exists v; split; reflexivity.
  - apply nth_error_None in Hnth; lia.
Qed.

Lemma getitem_nat {A : Type} (l : list A) (n : nat) (d : A) :
  (n < length l)%nat -> Py.getitem l (Z.of_nat n) = Ok (nth n l d).
Proof.
  intros Hn.
  destruct (getitem_in_range l (Z.of_nat n)) as [v [Hg Hnth]]; [lia|].
  rewrite Hg. rewrite Nat2Z.id in Hnth.
  rewrite (nth_error_nth _ _ d Hnth); reflexivity.
Qed.

Lemma getitem_past_end {A : Type} (l : list A) (i : Z) :
  (Z.of_nat (length l) <= i)%Z -> Py.getitem l i = Raise IndexError.
Proof.
  intros Hi. unfold Py.getitem.
  destruct (i <? 0)%Z eqn:Hneg; [apply Z.ltb_lt in Hneg; lia|].
  rewrite Hneg.
  destruct (nth_error l (Z.to_nat i)) as [v|] eqn:Hnth; [|reflexivity].
  assert (Z.to_nat i < length l)%nat
    by (apply nth_error_Some; rewrite Hnth; discriminate).
  lia.
Qed.

(** ** linspace *)

Lemma linspace_length (a b : R) (num : nat) :
  length (linspace a b num) = num.
Proof. unfold linspace, Py.range. rewrite length_map, length_seq. reflexivity. Qed.

Lemma linspace_nth (a b : R) (num k : nat) (d : R) :
  (k < num)%nat ->
  nth k (linspace a b num) d = a + INR k * ((b - a) / INR (num - 1)).
Proof.
  intros Hk. unfold linspace, Py.range.
  set (g := fun k => a + INR k * ((b - a) / INR (num - 1))).
  rewrite (nth_indep _ d (g O))
    by (rewrite length_map, length_seq; exact Hk).
  rewrite map_nth, seq_nth by exact Hk. reflexivity.
Qed.

Lemma linspace_first (a b : R) (num : nat) (d : R) :
  (1 <= num)%nat -> hd d (linspace a b num) = a.
Proof.
  intros Hn. destruct num as [|m]; [lia|].
  unfold linspace, Py.range; simpl. lra.
Qed.

Lemma last_nth {A : Type} (l : list A) (d : A) :
  last l d = nth (length l - 1) l d.
Proof.
  induction l as [|a l IH]; [reflexivity|].
  destruct l as [|b l]; [reflexivity|].
  change (last (a :: b :: l) d) with (last (b :: l) d).
  rewrite IH. simpl. rewrite Nat.sub_0_r. reflexivity.
Qed.

Lemma linspace_last (a b : R) (num : nat) (d : R) :
  (2 <= num)%nat -> last (linspace a b num) d = b.
Proof.
  intros Hn.
  rewrite last_nth, linspace_length, linspace_nth by lia.
  assert (Hpos : 0 < INR (num - 1)) by (apply lt_0_INR; lia).
  field. lra.
Qed.

(** ** FunctionSampler *)

Section SamplerFacts.

Context {A : Type}.
Variable f : R -> A.

Lemma init_image_length (a b : R) (N : nat) :
  length (FunctionSampler.image (FunctionSampler.init f a b N)) = N.
Proof. simpl. rewrite length_map. apply linspace_length. Qed.

(** The clamp of [__call__]: every query at or above [maxX - 1] reads the
    same index, and so does every query at or below [minX]. *)
Lemma index_above (s : FunctionSampler.t A) (x : R) :
  FunctionSampler.maxX s - 1 <= x ->
  FunctionSampler.index s x
  = Py.round ((FunctionSampler.maxX s - 1 - FunctionSampler.minX s)
              * (INR (FunctionSampler.numSamples s) / FunctionSampler.range s)).
Proof.
  intros Hx. unfold FunctionSampler.index.
  replace (Rmin (Rmax x (FunctionSampler.minX s)) (FunctionSampler.maxX s - 1))
    with (FunctionSampler.maxX s - 1); [reflexivity|].
  symmetry. apply Rmin_right.
  apply Rle_trans with x; [exact Hx | apply Rmax_l].
Qed.

Lemma index_below (s : FunctionSampler.t A) (x : R) :
  x <= FunctionSampler.minX s ->
  FunctionSampler.index s x
  = FunctionSampler.index s (FunctionSampler.minX s).
Proof.
  intros Hx. unfold FunctionSampler.index.
  rewrite (Rmax_right x _ Hx), (Rmax_right _ _ (Rle_refl _)). reflexivity.
Qed.

Lemma call_index_eq (s : FunctionSampler.t A) (x y : R) :
  FunctionSampler.index s x = FunctionSampler.index s y ->
  FunctionSampler.call s x = FunctionSampler.call s y.
Proof. intros H. unfold FunctionSampler.call. rewrite H. reflexivity. Qed.

(** The index stays inside the table when the domain is at least one unit
    wide and narrower than twice the number of samples. *)
Lemma index_bounds (a b : R) (N : nat) (x : R) :
  1 <= b - a -> b - a < 2 * INR N ->
  (0 <= FunctionSampler.index (FunctionSampler.init f a b N) x
     <= Z.of_nat N - 1)%Z.
Proof.
  intros Hw HN. unfold FunctionSampler.index; simpl.
  set (x1 := Rmin (Rmax x a) (b - 1)).
  assert (Hx1 : a <= x1 <= b - 1).
  { split; [|apply Rmin_r].
    apply Rmin_glb; [apply Rmax_r | lra]. }
  set (k := INR N / (b - a)).
  assert (Hk : k * (b - a) = INR N) by (unfold k; field; lra).
  assert (Hk2 : / 2 < k) by nra.
  apply round_between.
  rewrite minus_IZR, <- INR_IZR_INZ. split; nra.
Qed.

Lemma call_in_range (a b : R) (N : nat) (x : R) :
  1 <= b - a -> b - a < 2 * INR N ->
  exists v,
    FunctionSampler.call (FunctionSampler.init f a b N) x = Ok v
    /\ nth_error (FunctionSampler.image (FunctionSampler.init f a b N))
         (Z.to_nat (FunctionSampler.index (FunctionSampler.init f a b N) x))
       = Some v.
Proof.
  intros Hw HN.
  pose proof (index_bounds a b N x Hw HN) as Hi.
  unfold FunctionSampler.call.
  destruct (Req_dec_T (FunctionSampler.range (FunctionSampler.init f a b N)) 0)
    as [E|_]; [simpl in E; lra|].
  apply getitem_in_range. rewrite init_image_length. lia.
Qed.

End SamplerFacts.

(** The tables of [HilbertSpace] use [-15, 15] and 2000 samples. *)
Lemma table_width : 1 <= 15 - -15 /\ 15 - -15 < 2 * INR 2000.
Proof. rewrite INR_IZR_INZ; simpl Z.of_nat. lra. Qed.

Lemma linspace_stop_sampled (a b : R) (N : nat) :
  (2 <= N)%nat -> In b (linspace a b N).
Proof.
  intros HN. pose proof (linspace_last a b N 0 HN) as Hlast.
  rewrite last_nth in Hlast. rewrite <- Hlast at 1.
  apply nth_In. rewrite linspace_length. lia.
Qed.

Lemma linspace_within (a b : R) (N : nat) (p : R) :
  a <= b -> In p (linspace a b N) -> a <= p <= b.
Proof.
  intros Hab Hp.
  destruct (In_nth _ _ 0 Hp) as [k [Hk Hnth]].
  rewrite linspace_length in Hk. rewrite linspace_nth in Hnth by exact Hk.
  subst p.
  destruct (Nat.eq_dec N 1) as [->|HN1].
  - assert (k = O) by lia. subst k. simpl. lra.
  - assert (Hpos : 0 < INR (N - 1)) by (apply lt_0_INR; lia).
    assert (Hk0 : 0 <= INR k) by apply pos_INR.
    assert (Hk1 : INR k <= INR (N - 1)) by (apply le_INR; lia).
    set (w := (b - a) / INR (N - 1)).
    assert (Hw : w * INR (N - 1) = b - a) by (unfold w; field; lra).
    assert (Hw0 : 0 <= w).
    { unfold w. apply Rmult_le_pos; [lra|].
      apply Rlt_le, Rinv_0_lt_compat, Hpos. }
    split; nra.
Qed.

(** X24.  What the constructor samples.  Construction evaluates [f] at
    exactly [numSamples] points, point [k] being
    [minX + k (maxX - minX) / (numSamples - 1)]: the first is [minX], the
    last is [maxX], all lie in the closed interval when [minX <= maxX], and
    the values are stored in the order of the points. *)
Theorem samples_closed_interval {A : Type} (f : R -> A) (minX maxX : R)
    (numSamples : nat) :
  (2 <= numSamples)%nat ->
  let s := FunctionSampler.init f minX maxX numSamples in
  length (FunctionSampler.domain s) = numSamples
  /\ length (FunctionSampler.image s) = numSamples
  /\ (forall k, (k < numSamples)%nat ->
        nth k (FunctionSampler.domain s) 0
        = minX + INR k * ((maxX - minX) / INR (numSamples - 1))
        /\ nth_error (FunctionSampler.image s) k
           = Some (f (nth k (FunctionSampler.domain s) 0)))
  /\ hd 0 (FunctionSampler.domain s) = minX
  /\ last (FunctionSampler.domain s) 0 = maxX
  /\ (minX <= maxX ->
      forall p, In p (FunctionSampler.domain s) -> minX <= p <= maxX).
Proof.
  intros HN s. unfold s. simpl FunctionSampler.domain.
  split; [apply linspace_length|].
  split; [apply init_image_length|].
  split; [|split; [apply linspace_first; lia|
                   split; [apply linspace_last; exact HN|]]].
  - intros k Hk. split; [apply linspace_nth; exact Hk|].
    simpl FunctionSampler.image.
    rewrite nth_error_map.
    rewrite (nth_error_nth' _ 0) by (rewrite linspace_length; exact Hk).
    reflexivity.
  - intros Hab p Hp. apply (linspace_within minX maxX numSamples p Hab Hp).
Qed.

Lemma samples_closed_interval_witness :
  (2 <= 3)%nat
  /\ let s := FunctionSampler.init (fun x : R => x * x) 0 1 3 in
     length (FunctionSampler.domain s) = 3%nat
     /\ length (FunctionSampler.image s) = 3%nat
     /\ (forall k, (k < 3)%nat ->
           nth k (FunctionSampler.domain s) 0
           = 0 + INR k * ((1 - 0) / INR (3 - 1))
           /\ nth_error (FunctionSampler.image s) k
              = Some ((fun x : R => x * x)
                        (nth k (FunctionSampler.domain s) 0)))
     /\ hd 0 (FunctionSampler.domain s) = 0
     /\ last (FunctionSampler.domain s) 0 = 1
     /\ (0 <= 1 ->
         forall p, In p (FunctionSampler.domain s) -> 0 <= p <= 1).
Proof.
  split; [lia | apply (samples_closed_interval (fun x : R => x * x) 0 1 3); lia].
Defined.

(** The same index computation on a table with 4 samples over [[0, 10]]:
    the query 10 is clamped to 9 and reads index 4, one past the end. *)
Lemma narrow_table_index {A : Type} (f : R -> A) :
  FunctionSampler.index (FunctionSampler.init f 0 10 4) 10 = 4%Z.
Proof.
  unfold FunctionSampler.index; simpl FunctionSampler.minX;
    simpl FunctionSampler.maxX; simpl FunctionSampler.numSamples;
    simpl FunctionSampler.range.
  rewrite (Rmax_left 10 0) by lra. rewrite (Rmin_right 10 (10 - 1)) by lra.
  apply round_unique. rewrite INR_IZR_INZ; simpl Z.of_nat. lra.
Qed.

(** C10.  On a basis table (minX = -15, maxX = 15, 2000 samples) the index
    computed for any real query lies in [0, numSamples - 1], so the list
    access returns the stored value at that index and never counts from the
    end of the list; nothing clamps the index itself: with 4 samples over
    [[0, 10]] the query 10 reads index 4 and raises [IndexError]. *)
Theorem table_index_in_range {A : Type} (f : R -> A) (x : R) :
  let s := FunctionSampler.init f (-15) 15 2000 in
  (0 <= FunctionSampler.index s x
     <= Z.of_nat (FunctionSampler.numSamples s) - 1)%Z
  /\ (exists v, FunctionSampler.call s x = Ok v
                /\ nth_error (FunctionSampler.image s)
                     (Z.to_nat (FunctionSampler.index s x)) = Some v)
  /\ (let s' := FunctionSampler.init f 0 10 4 in
      FunctionSampler.index s' 10 = Z.of_nat (FunctionSampler.numSamples s')
      /\ FunctionSampler.call s' 10 = Raise IndexError).
Proof.
  intros s. destruct table_width as [Hw HN].
  split; [apply (index_bounds f (-15) 15 2000 x Hw HN)|].
  split; [apply (call_in_range f (-15) 15 2000 x Hw HN)|].
  intros s'. split; [apply narrow_table_index|].
  unfold FunctionSampler.call.
  destruct (Req_dec_T (FunctionSampler.range s') 0) as [E|_];
    [simpl in E; lra|].
  apply getitem_past_end. unfold s'. rewrite init_image_length.
  rewrite narrow_table_index. simpl. lia.
Qed.

(** ** HilbertSpace *)

Lemma QHO_tables (dim : nat) (V : option (R -> R)) :
  HilbertSpace.QHOBasisApprox (HilbertSpace.init dim "QHO" V)
  = Some (map (fun n => FunctionSampler.init (fun x => HilbertSpace.QHOBasis n x)
                                             (-15) 15 2000)
              (seq 0 dim)).
Proof. reflexivity. Qed.

Lemma eigenbasis_QHO (dim : nat) (V : option (R -> R)) (n : nat) (x : R) :
  (n < dim)%nat ->
  HilbertSpace.eigenbasis (HilbertSpace.init dim "QHO" V) n x
  = Ok (eigenbasis_value (HilbertSpace.init dim "QHO" V) n x).
Proof.
  intros Hn. unfold eigenbasis_value.
  unfold HilbertSpace.eigenbasis. rewrite QHO_tables.
  rewrite nth_error_map, nth_error_seq.
  destruct (Nat.ltb_spec n dim) as [_|Hge]; [|lia].
  cbn [option_map Nat.add].
  destruct table_width as [Hw HN].
  destruct (call_in_range (fun x => HilbertSpace.QHOBasis n x) (-15) 15 2000 x Hw HN)
    as [v [Hv _]].
  rewrite Hv. reflexivity.
Qed.

Lemma eigenbasis_past_dim (dim : nat) (V : option (R -> R)) (n : nat) (x : R) :
  (dim <= n)%nat ->
  HilbertSpace.eigenbasis (HilbertSpace.init dim "QHO" V) n x = Raise IndexError.
Proof.
  intros Hn. unfold HilbertSpace.eigenbasis. rewrite QHO_tables.
  rewrite nth_error_map, nth_error_seq.
  destruct (Nat.ltb_spec n dim) as [Hlt|_]; [lia|]. reflexivity.
Qed.

Lemma eigenvalues_QHO (dim : nat) (V : option (R -> R)) (n : nat) :
  HilbertSpace.eigenvalues (HilbertSpace.init dim "QHO" V) n
  = Ok (1 / 2 + INR n).
Proof. reflexivity. Qed.

Lemma eigenvalues_any_basis (dim : nat) (basis : string)
    (V : option (R -> R)) (n : nat) (v : R) :
  HilbertSpace.eigenvalues (HilbertSpace.init dim basis V) n = Ok v ->
  v = 1 / 2 + INR n.
Proof.
  unfold HilbertSpace.eigenvalues, HilbertSpace.init.
  cbn [HilbertSpace.QHOBasisApprox].
  destruct (String.eqb basis "QHO"); [|discriminate].
  intros H; injection H as <-; reflexivity.
Qed.

(** C4.  For every n in [0, dim) the eigenvalue function of a HilbertSpace
    returns n + 0.5; on the ['QHO'] basis (the only one that defines it) it
    always returns. *)
Theorem eigenvalue_closed_form (dim : nat) (V : option (R -> R)) (n : nat) :
  (n < dim)%nat ->
  HilbertSpace.eigenvalues (HilbertSpace.init dim "QHO" V) n = Ok (INR n + 0.5)
  /\ forall basis v,
       HilbertSpace.eigenvalues (HilbertSpace.init dim basis V) n = Ok v ->
       v = INR n + 0.5.
Proof.
  intros _. split.
  - rewrite eigenvalues_QHO. f_equal. lra.
  - intros basis v Hv. rewrite (eigenvalues_any_basis dim basis V n v Hv). lra.
Qed.

Lemma eigenvalue_closed_form_witness :
  (1 < 2)%nat
  /\ (HilbertSpace.eigenvalues (HilbertSpace.init 2 "QHO" None) 1
      = Ok (INR 1 + 0.5)
      /\ forall basis v,
           HilbertSpace.eigenvalues (HilbertSpace.init 2 basis None) 1 = Ok v ->
           v = INR 1 + 0.5).
Proof.
  split; [lia | apply (eigenvalue_closed_form 2 None 1); lia].
Defined.

(** ** The closed form sampled into the tables *)

Lemma quarter_power_PI : Rpower PI (1 / 4) = sqrt (sqrt PI).
Proof.
  assert (Hpi : 0 < PI) by apply PI_RGT_0.
  rewrite <- (Rpower_sqrt PI Hpi).
  rewrite <- Rpower_sqrt by (rewrite Rpower_sqrt by exact Hpi; apply sqrt_lt_R0, Hpi).
  rewrite Rpower_mult. f_equal. lra.
Qed.

Lemma two_pow_fact_pos (n : nat) : 0 < 2 ^ n * factorial n.
Proof.
  apply Rmult_lt_0_compat.
  - apply pow_lt; lra.
  - unfold factorial. apply lt_0_INR, Nat.neq_0_lt_0, fact_neq_0.
Qed.

Lemma QHOBasis_scaled (n : nat) (x : R) :
  HilbertSpace.QHOBasis n x = sqrt PI * qho_eigenfunction n x.
Proof.
  unfold HilbertSpace.QHOBasis, qho_eigenfunction.
  assert (Hpi : 0 < PI) by apply PI_RGT_0.
  assert (Hs : 0 < sqrt PI) by (apply sqrt_lt_R0, Hpi).
  assert (Hq : 0 < sqrt (sqrt PI)) by (apply sqrt_lt_R0, Hs).
  assert (Hw := two_pow_fact_pos n).
  assert (Hr : 0 < sqrt (2 ^ n * factorial n)) by (apply sqrt_lt_R0, Hw).
  rewrite quarter_power_PI.
  rewrite (sqrt_mult (2 ^ n * factorial n) (sqrt PI)) by lra.
  rewrite <- (sqrt_sqrt (sqrt PI)) at 2 by lra.
  field. lra.
Qed.

Lemma sqrt_PI_gt_1 : 1 < sqrt PI.
Proof.
  rewrite <- sqrt_1. apply sqrt_lt_1; [lra | | ].
  - apply Rlt_le, PI_RGT_0.
  - pose proof PI2_1. lra.
Qed.

(** C3 (the code departs from it).  The closed form sampled into the tables
    is [sqrt pi] times the eigenfunction with the factor
    [1 / sqrt (2^n n! sqrt pi)]: line 74 multiplies by [pi ** (1/4)] where
    the normalization divides by it.  At n = 0, x = 0 the two differ. *)
Theorem QHOBasis_normalization (n : nat) (x : R) :
  HilbertSpace.QHOBasis n x = sqrt PI * qho_eigenfunction n x
  /\ HilbertSpace.QHOBasis 0 0 = Rpower PI (1 / 4)
  /\ HilbertSpace.QHOBasis 0 0 <> qho_eigenfunction 0 0.
Proof.
  split; [apply QHOBasis_scaled|].
  assert (E0 : HilbertSpace.QHOBasis 0 0 = Rpower PI (1 / 4)).
  { unfold HilbertSpace.QHOBasis, hermite, factorial. simpl.
    replace (- (0 * (0 * 1)) / 2) with 0 by lra.
    rewrite exp_0. replace (1 * 1) with 1 by lra. rewrite sqrt_1. lra. }
  split; [exact E0|].
  intros Heq. rewrite QHOBasis_scaled in Heq.
  assert (Hpos : 0 < qho_eigenfunction 0 0).
  { assert (H : sqrt PI * qho_eigenfunction 0 0 = sqrt (sqrt PI)).
    { rewrite <- QHOBasis_scaled, E0. apply quarter_power_PI. }
    assert (Hq : 0 < sqrt (sqrt PI))
      by (apply sqrt_lt_R0, sqrt_lt_R0, PI_RGT_0).
    pose proof sqrt_PI_gt_1. nra. }
  pose proof sqrt_PI_gt_1. nra.
Qed.

(** ** Quadrature and sums *)

Lemma quad_total (Q : Quadrature) (g : R -> R) :
  quad Q (fun x => Ok (g x)) = Ok (integral Q g).
Proof.
  unfold integral. destruct (quad_returns Q g) as [v Hv].
  rewrite Hv. reflexivity.
Qed.

Lemma quad_pointwise (Q : Quadrature) (f : R -> result R) (g : R -> R) :
  (forall x, f x = Ok (g x)) -> quad Q f = Ok (integral Q g).
Proof.
  intros H. rewrite <- quad_total. f_equal.
  apply functional_extensionality. exact H.
Qed.

Lemma py_sum_seq (g : nat -> complex) (n : nat) :
  py_sum (map g (seq 0 n)) = Csum g n.
Proof.
  unfold py_sum. induction n as [|n IH]; [reflexivity|].
  rewrite seq_S, map_app, fold_left_app, IH. reflexivity.
Qed.

(** ** WaveFunction *)

Section WaveFunctionFacts.

Variable Q : Quadrature.
Variable hs : HilbertSpace.t.

Lemma phaseFactor_QHO (dim : nat) (V : option (R -> R)) (n : nat) (t : R) :
  WaveFunction.phaseFactor (HilbertSpace.init dim "QHO" V) n t
  = Ok (Cexp (Cmult (Cmult (Copp Ci) (RtoC (INR n + 1 / 2))) (RtoC t))).
Proof.
  unfold WaveFunction.phaseFactor. rewrite eigenvalues_QHO.
  rewrite (Rplus_comm (1 / 2) (INR n)). reflexivity.
Qed.

(** The superposition of line 100 is the sum of the time evolution law. *)
Lemma superposition_QHO (dim : nat) (V : option (R -> R))
    (c : list complex) (x t : R) :
  (dim <= length c)%nat ->
  WaveFunction.superposition (HilbertSpace.init dim "QHO" V) c x t
  = Ok (spectral_raw dim (fun n => nth n c (RtoC 0))
          (eigenbasis_value (HilbertSpace.init dim "QHO" V)) x t).
Proof.
  intros Hlen. unfold WaveFunction.superposition, spectral_raw.
  change (HilbertSpace.dim (HilbertSpace.init dim "QHO" V)) with dim.
  unfold Py.range.
  rewrite (comprehension_Ok _
    (fun n => Cmult (Cmult (nth n c (RtoC 0))
                      (RtoC (eigenbasis_value (HilbertSpace.init dim "QHO" V) n x)))
                    (Cexp (Cmult (Cmult (Copp Ci) (RtoC (INR n + 1 / 2)))
                                 (RtoC t))))).
  - rewrite bind_Ok, py_sum_seq. reflexivity.
  - intros n Hn. apply in_seq in Hn.
    rewrite (getitem_nat c n (RtoC 0)) by lia. rewrite bind_Ok.
    rewrite eigenbasis_QHO by lia. rewrite bind_Ok.
    rewrite phaseFactor_QHO. reflexivity.
Qed.

Lemma normalize_QHO (dim : nat) (V : option (R -> R)) (c : list complex) :
  (dim <= length c)%nat ->
  WaveFunction.normalize Q
    (fun x => WaveFunction.superposition (HilbertSpace.init dim "QHO" V) c x 0)
  = Ok (spectral_normF Q dim (fun n => nth n c (RtoC 0))
          (eigenbasis_value (HilbertSpace.init dim "QHO" V))).
Proof.
  intros Hlen. unfold WaveFunction.normalize, spectral_normF.
  rewrite (quad_pointwise Q _
    (fun x => Cmod (spectral_raw dim (fun n => nth n c (RtoC 0))
                      (eigenbasis_value (HilbertSpace.init dim "QHO" V)) x 0) ^ 2)).
  - reflexivity.
  - intros x. rewrite superposition_QHO by exact Hlen. reflexivity.
Qed.

(** Construction from explicit coefficients over a ['QHO'] space. *)
Lemma init_explicit (dim : nat) (V : option (R -> R))
    (initWaveFunc : option (R -> R)) (c : list complex) :
  (dim <= length c)%nat ->
  exists wf,
    WaveFunction.init Q hs (HilbertSpace.init dim "QHO" V) initWaveFunc (Some c)
    = Ok wf
    /\ WaveFunction.hilbert wf = HilbertSpace.init dim "QHO" V
    /\ WaveFunction.coeff wf = c
    /\ forall x t,
         WaveFunction.evaluate wf x t
         = Ok (spectral_evaluate Q dim (fun n => nth n c (RtoC 0))
                 (eigenbasis_value (HilbertSpace.init dim "QHO" V)) x t).
Proof.
  intros Hlen. unfold WaveFunction.init. rewrite bind_Ok.
  rewrite normalize_QHO by exact Hlen. rewrite bind_Ok.
  eexists; split; [reflexivity|].
  cbn [WaveFunction.hilbert WaveFunction.coeff WaveFunction.evaluate].
  split; [reflexivity|]. split; [reflexivity|].
  intros x t. rewrite superposition_QHO by exact Hlen. reflexivity.
Qed.

(** With fewer coefficients than modes the superposition raises at the
    first missing coefficient, wherever it is evaluated. *)
Lemma superposition_short (dim : nat) (V : option (R -> R))
    (c : list complex) (x t : R) :
  (length c < dim)%nat ->
  WaveFunction.superposition (HilbertSpace.init dim "QHO" V) c x t
  = Raise IndexError.
Proof.
  intros Hlen. unfold WaveFunction.superposition.
  change (HilbertSpace.dim (HilbertSpace.init dim "QHO" V)) with dim.
  unfold Py.range.
  assert (E : seq 0 dim
              = seq 0 (length c)
                ++ length c :: seq (S (length c)) (dim - length c - 1)).
  { replace dim with (length c + S (dim - length c - 1))%nat at 1 by lia.
    rewrite seq_app. reflexivity. }
  rewrite E.
  rewrite (comprehension_Raise _
    (fun n => Cmult (Cmult (nth n c (RtoC 0))
                      (RtoC (eigenbasis_value (HilbertSpace.init dim "QHO" V) n x)))
                    (Cexp (Cmult (Cmult (Copp Ci) (RtoC (INR n + 1 / 2)))
                                 (RtoC t))))
    _ _ _ IndexError).
  - reflexivity.
  - intros n Hn. apply in_seq in Hn.
    rewrite (getitem_nat c n (RtoC 0)) by lia. rewrite bind_Ok.
    rewrite eigenbasis_QHO by lia. rewrite bind_Ok.
    rewrite phaseFactor_QHO. reflexivity.
  - rewrite getitem_past_end by lia. reflexivity.
Qed.

Lemma normalize_short (dim : nat) (V : option (R -> R)) (c : list complex) :
  (length c < dim)%nat ->
  WaveFunction.normalize Q
    (fun x => WaveFunction.superposition (HilbertSpace.init dim "QHO" V) c x 0)
  = Raise IndexError.
Proof.
  intros Hlen. unfold WaveFunction.normalize.
  rewrite (quad_raises Q _ IndexError); [reflexivity|].
  intros x. rewrite superposition_short by exact Hlen. reflexivity.
Qed.

(** Whatever the construction branch, a WaveFunction that was built
    evaluates the normalized sum over its stored coefficients. *)
Lemma init_returned (dim : nat) (V : option (R -> R))
    (initWaveFunc : option (R -> R)) (c0 : option (list complex))
    (wf : WaveFunction.t) :
  WaveFunction.init Q hs (HilbertSpace.init dim "QHO" V) initWaveFunc c0
  = Ok wf ->
  forall x t,
    WaveFunction.evaluate wf x t
    = Ok (spectral_evaluate Q dim
            (fun n => nth n (WaveFunction.coeff wf) (RtoC 0))
            (eigenbasis_value (HilbertSpace.init dim "QHO" V)) x t).
Proof.
  unfold WaveFunction.init.
  destruct (match c0 with
            | Some c => Ok c
            | None => WaveFunction.orthogonalBasisProjection Q hs
                        (HilbertSpace.init dim "QHO" V) initWaveFunc
            end) as [c|e]; [|discriminate].
  rewrite bind_Ok.
  destruct (le_lt_dec dim (length c)) as [Hlen|Hlen].
  - rewrite normalize_QHO by exact Hlen. rewrite bind_Ok.
    intros Hwf; injection Hwf as <-.
    cbn [WaveFunction.coeff WaveFunction.evaluate].
    intros x t. rewrite superposition_QHO by exact Hlen. reflexivity.
  - rewrite normalize_short by exact Hlen. discriminate.
Qed.

End WaveFunctionFacts.

(** C1.  A WaveFunction built over a HilbertSpace of dimension dim from the
    coefficient vector coeff is constructed, and its public evaluator returns
    (sum over n < dim of coeff[n] eigenbasis(n, x) exp(-i (n + 1/2) t)) / normF
    with normF = sqrt (integral of |raw(x, 0)|^2), the number computed once
    by the constructor; the same holds, over its stored coefficients, of
    every WaveFunction a construction returns. *)
Theorem evaluate_spectral (Q : Quadrature) (hs : HilbertSpace.t) (dim : nat)
    (V : option (R -> R)) (initWaveFunc : option (R -> R))
    (coeff : list complex) :
  length coeff = dim ->
  let H := HilbertSpace.init dim "QHO" V in
  (exists wf,
     WaveFunction.init Q hs H initWaveFunc (Some coeff) = Ok wf
     /\ WaveFunction.coeff wf = coeff
     /\ forall x t,
          WaveFunction.evaluate wf x t
          = Ok (spectral_evaluate Q dim (fun n => nth n coeff (RtoC 0))
                  (eigenbasis_value H) x t))
  /\ (forall c0 wf,
        WaveFunction.init Q hs H initWaveFunc c0 = Ok wf ->
        forall x t,
          WaveFunction.evaluate wf x t
          = Ok (spectral_evaluate Q dim
                  (fun n => nth n (WaveFunction.coeff wf) (RtoC 0))
                  (eigenbasis_value H) x t)).
Proof.
  intros Hlen H. split.
  - destruct (init_explicit Q hs dim V initWaveFunc coeff)
      as [wf [Hi [_ [Hc He]]]]; [lia|].
    exists wf. split; [exact Hi|]. split; [exact Hc | exact He].
  - intros c0 wf Hwf. apply (init_returned Q hs dim V initWaveFunc c0 wf Hwf).
Qed.

Lemma evaluate_spectral_witness :
  length [RtoC 1; RtoC 1] = 2%nat
  /\ let H := HilbertSpace.init 2 "QHO" None in
     (exists wf,
        WaveFunction.init three_point_rule H H None (Some [RtoC 1; RtoC 1])
        = Ok wf
        /\ WaveFunction.coeff wf = [RtoC 1; RtoC 1]
        /\ forall x t,
             WaveFunction.evaluate wf x t
             = Ok (spectral_evaluate three_point_rule 2
                     (fun n => nth n [RtoC 1; RtoC 1] (RtoC 0))
                     (eigenbasis_value H) x t))
     /\ (forall c0 wf,
           WaveFunction.init three_point_rule H H None c0 = Ok wf ->
           forall x t,
             WaveFunction.evaluate wf x t
             = Ok (spectral_evaluate three_point_rule 2
                     (fun n => nth n (WaveFunction.coeff wf) (RtoC 0))
                     (eigenbasis_value H) x t)).
Proof.
  split; [reflexivity|].
  apply (evaluate_spectral three_point_rule (HilbertSpace.init 2 "QHO" None) 2
           None None [RtoC 1; RtoC 1]).
  reflexivity.
Defined.

(** ** Phases *)

Lemma phase_argument (a t : R) :
  Cmult (Cmult (Copp Ci) (RtoC a)) (RtoC t) = (0, - (a * t)).
Proof. unfold Cmult, Copp, Ci, RtoC; simpl. f_equal; ring. Qed.

Lemma Cexp_phase (a t : R) :
  Cexp (Cmult (Cmult (Copp Ci) (RtoC a)) (RtoC t))
  = (cos (- (a * t)), sin (- (a * t))).
Proof.
  rewrite phase_argument. unfold Cexp; simpl. rewrite exp_0. f_equal; ring.
Qed.

Lemma Cexp_phase_0 (a : R) :
  Cexp (Cmult (Cmult (Copp Ci) (RtoC a)) (RtoC 0)) = RtoC 1.
Proof.
  rewrite Cexp_phase. replace (- (a * 0)) with 0 by ring.
  rewrite cos_0, sin_0. reflexivity.
Qed.

Lemma Cmod_mult_unit (z : complex) (c s : R) :
  c ^ 2 + s ^ 2 = 1 -> Cmod (Cmult z (c, s)) = Cmod z.
Proof.
  intros H. unfold Cmod, Cmult; simpl. f_equal.
  replace ((fst z * c - snd z * s) * ((fst z * c - snd z * s) * 1)
           + (fst z * s + snd z * c) * ((fst z * s + snd z * c) * 1))
    with ((fst z ^ 2 + snd z ^ 2) * (c ^ 2 + s ^ 2)) by ring.
  rewrite H. ring.
Qed.

Lemma Cmod_mult_phase (z : complex) (a t : R) :
  Cmod (Cmult z (Cexp (Cmult (Cmult (Copp Ci) (RtoC a)) (RtoC t)))) = Cmod z.
Proof.
  rewrite Cexp_phase. apply Cmod_mult_unit.
  pose proof (sin2_cos2 (- (a * t))) as H. unfold Rsqr in H. lra.
Qed.

(** One mode with coefficient 1: the value at time t is the value at time 0
    times the phase of the mode. *)
Lemma single_mode_phase (Q : Quadrature) (eb : nat -> R -> R) (x t : R) :
  spectral_evaluate Q 1 (fun n => nth n [RtoC 1] (RtoC 0)) eb x t
  = Cmult (spectral_evaluate Q 1 (fun n => nth n [RtoC 1] (RtoC 0)) eb x 0)
          (Cexp (Cmult (Cmult (Copp Ci) (RtoC 0.5)) (RtoC t))).
Proof.
  unfold spectral_evaluate.
  set (N := Cinv (RtoC (spectral_normF Q 1 (fun n => nth n [RtoC 1] (RtoC 0)) eb))).
  unfold Cdiv, spectral_raw. cbn [Csum nth INR].
  rewrite Cexp_phase_0.
  replace (0 + 1 / 2) with 0.5 by lra.
  destruct (Cexp (Cmult (Cmult (Copp Ci) (RtoC 0.5)) (RtoC t))) as [c s].
  destruct N as [p q].
  unfold Cmult, Cplus, RtoC; simpl. f_equal; ring.
Qed.

(** C7.  For dim = 1 and coeff = [1] the WaveFunction is constructed, its
    evaluator returns at every x and t, evaluate(x, t) is
    evaluate(x, 0) exp(-i 0.5 t), and the modulus does not depend on t. *)
Theorem single_mode_stationary (Q : Quadrature) (hs : HilbertSpace.t)
    (V : option (R -> R)) (initWaveFunc : option (R -> R)) :
  exists wf,
    WaveFunction.init Q hs (HilbertSpace.init 1 "QHO" V) initWaveFunc
      (Some [RtoC 1]) = Ok wf
    /\ forall x t,
         exists v0 vt,
           WaveFunction.evaluate wf x 0 = Ok v0
           /\ WaveFunction.evaluate wf x t = Ok vt
           /\ vt = Cmult v0 (Cexp (Cmult (Cmult (Copp Ci) (RtoC 0.5)) (RtoC t)))
           /\ Cmod vt = Cmod v0.
Proof.
  destruct (init_explicit Q hs 1 V initWaveFunc [RtoC 1]) as [wf [Hi [_ [_ He]]]];
    [simpl; lia|].
  exists wf. split; [exact Hi|].
  intros x t. eexists. eexists.
  split; [apply He|]. split; [apply He|].
  split; [apply single_mode_phase|].
  rewrite (single_mode_phase Q _ x t). apply Cmod_mult_phase.
Qed.

(** ** The potential *)

Lemma projection_potential (Q : Quadrature) (hs : HilbertSpace.t) (dim : nat)
    (basis : string) (V1 V2 : option (R -> R)) (psi0 : option (R -> R)) :
  WaveFunction.orthogonalBasisProjection Q hs (HilbertSpace.init dim basis V1) psi0
  = WaveFunction.orthogonalBasisProjection Q hs (HilbertSpace.init dim basis V2) psi0.
Proof. reflexivity. Qed.

(** C9.  Two HilbertSpaces of the same dimension (and basis) that differ in
    the potential give, from the same coefficients or the same initial
    waveform, constructions whose evaluators return the same result at every
    x and t. *)
Theorem potential_not_observable (Q : Quadrature) (hs : HilbertSpace.t)
    (dim : nat) (basis : string) (V1 V2 : option (R -> R))
    (initWaveFunc : option (R -> R)) (coeff : option (list complex))
    (x t : R) :
  WaveFunction.evaluate_at
    (WaveFunction.init Q hs (HilbertSpace.init dim basis V1) initWaveFunc coeff)
    x t
  = WaveFunction.evaluate_at
      (WaveFunction.init Q hs (HilbertSpace.init dim basis V2) initWaveFunc coeff)
      x t.
Proof.
  unfold WaveFunction.evaluate_at, WaveFunction.init.
  rewrite (projection_potential Q hs dim basis V1 V2 initWaveFunc).
  destruct (match coeff with
            | Some c => Ok c
            | None => WaveFunction.orthogonalBasisProjection Q hs
                        (HilbertSpace.init dim basis V2) initWaveFunc
            end) as [c|e]; [|reflexivity].
  rewrite !bind_Ok.
  change (fun x0 => WaveFunction.superposition (HilbertSpace.init dim basis V1) c x0 0)
    with (fun x0 => WaveFunction.superposition (HilbertSpace.init dim basis V2) c x0 0).
  destruct (WaveFunction.normalize Q
              (fun x0 => WaveFunction.superposition
                           (HilbertSpace.init dim basis V2) c x0 0))
    as [normF|e]; reflexivity.
Qed.

(** ** Degenerate normalization *)

Lemma spectral_raw_zero (dim : nat) (coeff : nat -> complex)
    (eb : nat -> R -> R) (x t : R) :
  (forall n, coeff n = RtoC 0) -> spectral_raw dim coeff eb x t = RtoC 0.
Proof.
  intros Hc. unfold spectral_raw.
  induction dim as [|dim IH]; [reflexivity|].
  cbn [Csum]. rewrite IH, Hc.
  destruct (Cexp (Cmult (Cmult (Copp Ci) (RtoC (INR dim + 1 / 2))) (RtoC t)))
    as [c s].
  unfold Cplus, Cmult, RtoC; simpl. f_equal; ring.
Qed.

Lemma Cmod_zero : Cmod (RtoC 0) ^ 2 = 0.
Proof.
  unfold Cmod, RtoC; simpl.
  replace (0 * (0 * 1) + 0 * (0 * 1)) with 0 by ring.
  rewrite sqrt_0. ring.
Qed.

(** The normalization integrand of the zero coefficient vector over the
    one-mode space, and the number the three-point rule returns for it. *)
Lemma zero_vector_integral :
  quad three_point_rule
    (fun x =>
       w <- WaveFunction.superposition (HilbertSpace.init 1 "QHO" None)
              [RtoC 0] x 0 ;;
       Ok (Cmod w ^ 2))
  = Ok 0.
Proof.
  assert (Hraw : forall x,
    WaveFunction.superposition (HilbertSpace.init 1 "QHO" None) [RtoC 0] x 0
    = Ok (RtoC 0)).
  { intros x. rewrite superposition_QHO by (simpl; lia). f_equal.
    apply spectral_raw_zero. intros [|[|n]]; reflexivity. }
  cbn [quad three_point_rule]. unfold three_point.
  rewrite !Hraw, !bind_Ok, Cmod_zero. f_equal. ring.
Qed.

(** C8, as the specification states it, fails: for the zero coefficient
    vector the normalization is zero and the constructor still returns a
    WaveFunction. *)
Lemma zero_norm_accepted :
  ~ rejects_zero_norm three_point_rule (HilbertSpace.init 1 "QHO" None)
      (HilbertSpace.init 1 "QHO" None) None [RtoC 0].
Proof.
  unfold rejects_zero_norm.
  assert (Hn : WaveFunction.normalize three_point_rule
                 (fun x => WaveFunction.superposition
                             (HilbertSpace.init 1 "QHO" None) [RtoC 0] x 0)
               = Ok 0).
  { unfold WaveFunction.normalize. rewrite zero_vector_integral.
    rewrite bind_Ok, sqrt_0. reflexivity. }
  intros Hclaim. destruct (Hclaim Hn) as [e He].
  unfold WaveFunction.init in He. rewrite bind_Ok, Hn, bind_Ok in He.
  discriminate He.
Qed.

(** C8, amended.  When the normalization integral computed at construction
    evaluates to zero, construction is not refused: the constructor returns a
    WaveFunction whose evaluator divides the superposition by normF = 0. *)
Theorem zero_norm_not_rejected (Q : Quadrature) (hs H : HilbertSpace.t)
    (initWaveFunc : option (R -> R)) (coeff : list complex) :
  quad Q (fun x => w <- WaveFunction.superposition H coeff x 0 ;;
                   Ok (Cmod w ^ 2)) = Ok 0 ->
  exists wf,
    WaveFunction.init Q hs H initWaveFunc (Some coeff) = Ok wf
    /\ WaveFunction.coeff wf = coeff
    /\ forall x t,
         WaveFunction.evaluate wf x t
         = (v <- WaveFunction.superposition H coeff x t ;;
            Ok (Cdiv v (RtoC 0))).
Proof.
  intros Hq. unfold WaveFunction.init, WaveFunction.normalize.
  rewrite bind_Ok, Hq, bind_Ok, sqrt_0, bind_Ok.
  eexists. split; [reflexivity|].
  split; reflexivity.
Qed.

Lemma zero_norm_not_rejected_witness :
  quad three_point_rule
    (fun x =>
       w <- WaveFunction.superposition (HilbertSpace.init 1 "QHO" None)
              [RtoC 0] x 0 ;;
       Ok (Cmod w ^ 2))
  = Ok 0
  /\ exists wf,
       WaveFunction.init three_point_rule (HilbertSpace.init 1 "QHO" None)
         (HilbertSpace.init 1 "QHO" None) None (Some [RtoC 0]) = Ok wf
       /\ WaveFunction.coeff wf = [RtoC 0]
       /\ forall x t,
            WaveFunction.evaluate wf x t
            = (v <- WaveFunction.superposition (HilbertSpace.init 1 "QHO" None)
                      [RtoC 0] x t ;;
               Ok (Cdiv v (RtoC 0))).
Proof.
  split; [exact zero_vector_integral|].
  apply (zero_norm_not_rejected three_point_rule
           (HilbertSpace.init 1 "QHO" None) (HilbertSpace.init 1 "QHO" None)
           None [RtoC 0]).
  exact zero_vector_integral.
Defined.

(** ** Projection of an initial waveform *)

Section ProjectionFacts.

Variable Q : Quadrature.

(** The loop of [orthogonalBasisProjection] runs over [range(hs.dim)]:
    while [hs.dim] does not exceed the dimension of the instance's own
    space, one coefficient per mode of [hs] is produced. *)
Lemma projection_QHO (hs : HilbertSpace.t) (dim : nat) (V : option (R -> R))
    (psi0 : R -> R) :
  (HilbertSpace.dim hs <= dim)%nat ->
  WaveFunction.orthogonalBasisProjection Q hs (HilbertSpace.init dim "QHO" V)
    (Some psi0)
  = Ok (map (fun n =>
               RtoC (integral Q
                       (fun x =>
                          np_conj (eigenbasis_value
                                     (HilbertSpace.init dim "QHO" V) n x)
                          * psi0 x)))
            (seq 0 (HilbertSpace.dim hs))).
Proof.
  intros Hdim. unfold WaveFunction.orthogonalBasisProjection, Py.range.
  apply comprehension_Ok.
  intros n Hn. apply in_seq in Hn.
  rewrite (quad_pointwise Q _
    (fun x => np_conj (eigenbasis_value (HilbertSpace.init dim "QHO" V) n x)
              * psi0 x)).
  - reflexivity.
  - intros x. rewrite eigenbasis_QHO by lia. reflexivity.
Qed.

(** Where the module-level [hs] is the space passed to the constructor,
    the coefficients are the projection integrals of the specification. *)
Lemma projection_own_space (dim : nat) (V : option (R -> R))
    (psi0 : R -> R) :
  WaveFunction.orthogonalBasisProjection Q (HilbertSpace.init dim "QHO" V)
    (HilbertSpace.init dim "QHO" V) (Some psi0)
  = Ok (projection_coefficients Q (HilbertSpace.init dim "QHO" V) psi0).
Proof. apply projection_QHO. simpl. lia. Qed.

(** A module-level [hs] with more modes than the instance's space makes
    the projection read a table that does not exist. *)
Lemma projection_past_dim (hs : HilbertSpace.t) (dim : nat)
    (V : option (R -> R)) (psi0 : R -> R) :
  (dim < HilbertSpace.dim hs)%nat ->
  WaveFunction.orthogonalBasisProjection Q hs (HilbertSpace.init dim "QHO" V)
    (Some psi0)
  = Raise IndexError.
Proof.
  intros Hdim. unfold WaveFunction.orthogonalBasisProjection, Py.range.
  assert (E : seq 0 (HilbertSpace.dim hs)
              = seq 0 dim ++ dim :: seq (S dim) (HilbertSpace.dim hs - dim - 1)).
  { replace (HilbertSpace.dim hs)
      with (dim + S (HilbertSpace.dim hs - dim - 1))%nat at 1 by lia.
    rewrite seq_app. reflexivity. }
  rewrite E.
  apply (comprehension_Raise _
    (fun n => RtoC (integral Q
                      (fun x =>
                         np_conj (eigenbasis_value
                                    (HilbertSpace.init dim "QHO" V) n x)
                         * psi0 x)))).
  - intros n Hn. apply in_seq in Hn.
    rewrite (quad_pointwise Q _
      (fun x => np_conj (eigenbasis_value (HilbertSpace.init dim "QHO" V) n x)
                * psi0 x)).
    + reflexivity.
    + intros x. rewrite eigenbasis_QHO by lia. reflexivity.
  - rewrite (quad_raises Q _ IndexError); [reflexivity|].
    intros x. rewrite eigenbasis_past_dim by lia. reflexivity.
Qed.

End ProjectionFacts.

(** C2 (the code departs from it).  With the module-level [hs] of dimension
    2, as in the script, a WaveFunction constructed from an initial waveform
    over a HilbertSpace of dimension 3 gets 2 coefficients, not 3, and its
    construction then raises [IndexError] in the normalization. *)
Theorem projection_reads_module_hs (Q : Quadrature) (V V' : option (R -> R))
    (psi0 : R -> R) :
  let hs := HilbertSpace.init 2 "QHO" V in
  let own := HilbertSpace.init 3 "QHO" V' in
  (exists cs,
     WaveFunction.orthogonalBasisProjection Q hs own (Some psi0) = Ok cs
     /\ length cs = HilbertSpace.dim hs
     /\ length cs <> HilbertSpace.dim own)
  /\ WaveFunction.init Q hs own (Some psi0) None = Raise IndexError.
Proof.
  intros hs own.
  assert (Hp := projection_QHO Q hs 3 V' psi0).
  change (HilbertSpace.init 3 "QHO" V') with own in Hp.
  specialize (Hp ltac:(simpl; lia)).
  split.
  - eexists. split; [exact Hp|].
    rewrite length_map, length_seq. simpl. split; [reflexivity | lia].
  - unfold WaveFunction.init. rewrite Hp, bind_Ok.
    unfold own. rewrite normalize_short; [reflexivity|].
    rewrite length_map, length_seq. simpl. lia.
Qed.

(** ** Concrete runs *)

Lemma round_tie (z : Z) :
  Py.round (IZR z + / 2) = if Z.even z then z else (z + 1)%Z.
Proof.
  unfold Py.round.
  assert (E : Int_part (IZR z + / 2) = z)
    by (symmetry; apply Int_part_spec; lra).
  rewrite E.
  destruct (Rlt_dec (IZR z + / 2 - IZR z) (/ 2)) as [H|_]; [lra|].
  destruct (Rlt_dec (/ 2) (IZR z + / 2 - IZR z)) as [H|_]; [lra|].
  reflexivity.
Qed.

Example round_half_to_even :
  Py.round 0.5 = 0%Z /\ Py.round 1.5 = 2%Z /\ Py.round 2.5 = 2%Z
  /\ Py.round (-0.5) = 0%Z /\ Py.round 3.6 = 4%Z /\ Py.round 1933 = 1933%Z.
Proof.
  replace 0.5 with (IZR 0 + / 2) by lra.
  replace 1.5 with (IZR 1 + / 2) by lra.
  replace 2.5 with (IZR 2 + / 2) by lra.
  replace (-0.5) with (IZR (-1) + / 2) by lra.
  rewrite !round_tie. simpl.
  repeat split; try reflexivity; apply round_unique; lra.
Qed.

Example getitem_wraps :
  Py.getitem [10%Z; 20%Z; 30%Z] (-1) = Ok 30%Z
  /\ Py.getitem [10%Z; 20%Z; 30%Z] (-3) = Ok 10%Z
  /\ Py.getitem [10%Z; 20%Z; 30%Z] 2 = Ok 30%Z
  /\ Py.getitem [10%Z; 20%Z; 30%Z] 3 = Raise IndexError
  /\ Py.getitem [10%Z; 20%Z; 30%Z] (-4) = Raise IndexError.
Proof. repeat split. Qed.

Example hermite_values (x : R) :
  hermite 0 x = 1 /\ hermite 1 x = 2 * x /\ hermite 2 x = 4 * x ^ 2 - 2
  /\ hermite 3 x = 8 * x ^ 3 - 12 * x.
Proof. unfold hermite; simpl. repeat split; ring. Qed.

(** On a basis table every query at or above 14 reads index 1933, the
    sample taken at [-15 + 1933 * 30 / 1999]; the entry sampled at 15 has
    index 1999. *)
Lemma table_upper_clamp {A : Type} (f : R -> A) (x : R) :
  14 <= x ->
  let s := FunctionSampler.init f (-15) 15 2000 in
  FunctionSampler.index s x = 1933%Z
  /\ FunctionSampler.call s x = Ok (f (-15 + 1933 * (30 / 1999))).
Proof.
  intros Hx s.
  assert (Hi : FunctionSampler.index s x = 1933%Z).
  { rewrite (index_above s x) by (simpl; lra).
    cbn [FunctionSampler.maxX FunctionSampler.minX FunctionSampler.numSamples
         FunctionSampler.range s FunctionSampler.init].
    apply round_unique. rewrite INR_IZR_INZ; simpl Z.of_nat. lra. }
  split; [exact Hi|].
  destruct table_width as [Hw HN].
  destruct (call_in_range f (-15) 15 2000 x Hw HN) as [v [Hv Hnth]].
  fold s in Hv, Hnth. rewrite Hv. f_equal.
  assert (Hval : nth_error (FunctionSampler.image s) 1933
                 = Some (f (-15 + 1933 * (30 / 1999)))).
  { cbn [FunctionSampler.image s FunctionSampler.init].
    rewrite nth_error_map.
    rewrite (nth_error_nth' _ 0) by (rewrite linspace_length; lia).
    rewrite linspace_nth by lia.
    cbn [option_map]. do 2 f_equal.
    change (2000 - 1)%nat with 1999%nat.
    rewrite !INR_IZR_INZ. simpl Z.of_nat. lra. }
  rewrite Hi in Hnth. change (Z.to_nat 1933) with 1933%nat in Hnth.
  congruence.
Qed.

(** On a domain narrower than one unit the clamp bound [maxX - 1] lies
    below [minX] and the index is negative: with 10 samples over
    [[0, 1/2]] every query reads index -10, which Python counts from the
    end of the list. *)
Lemma narrow_domain_negative_index {A : Type} (f : R -> A) (x : R) :
  let s := FunctionSampler.init f 0 (1 / 2) 10 in
  FunctionSampler.index s x = (-10)%Z
  /\ FunctionSampler.call s x = Ok (f 0).
Proof.
  intros s.
  assert (Hi : FunctionSampler.index s x = (-10)%Z).
  { unfold FunctionSampler.index.
    cbn [FunctionSampler.maxX FunctionSampler.minX FunctionSampler.numSamples
         FunctionSampler.range s FunctionSampler.init].
    rewrite Rmin_right by (apply Rle_trans with 0; [lra | apply Rmax_r]).
    apply round_unique. rewrite INR_IZR_INZ; simpl Z.of_nat. lra. }
  split; [exact Hi|].
  unfold FunctionSampler.call.
  destruct (Req_dec_T (FunctionSampler.range s) 0) as [E|_];
    [simpl in E; lra|].
  rewrite Hi. unfold s, FunctionSampler.init, linspace, Py.range.
  cbn [FunctionSampler.image seq map]. unfold Py.getitem.
  cbn [length Z.of_nat]. simpl. f_equal. f_equal. lra.
Qed.

(** * Further properties of the program *)

(** ** FunctionSampler: when a query returns *)

Lemma round_monotone (x y : R) :
  x <= y -> (Py.round x <= Py.round y)%Z.
Proof.
  intros Hxy. destruct (Req_dec x y) as [->|Hne]; [lia|].
  destruct (round_bounds x) as [Hx _]. destruct (round_bounds y) as [_ Hy].
  assert (H : (Py.round x < Py.round y + 1)%Z)
    by (apply lt_IZR; rewrite plus_IZR; lra).
  lia.
Qed.

Lemma getitem_outcome {A : Type} (l : list A) (i : Z) :
  ((- Z.of_nat (length l) <= i < Z.of_nat (length l))%Z ->
   exists v,
     Py.getitem l i = Ok v
     /\ nth_error l (Z.to_nat (if (i <? 0)%Z then i + Z.of_nat (length l) else i))
        = Some v)
  /\ ((i < - Z.of_nat (length l) \/ Z.of_nat (length l) <= i)%Z ->
      Py.getitem l i = Raise IndexError).
Proof.
  unfold Py.getitem. cbv zeta. split.
  - intros [Hlo Hhi].
    destruct (i <? 0)%Z eqn:Hneg.
    + apply Z.ltb_lt in Hneg.
      destruct (i + Z.of_nat (length l) <? 0)%Z eqn:Hj;
        [apply Z.ltb_lt in Hj; lia|].
      destruct (nth_error l (Z.to_nat (i + Z.of_nat (length l)))) as [v|] eqn:E.
      * exists v; split; reflexivity.
      * apply nth_error_None in E. lia.
    + apply Z.ltb_ge in Hneg.
      destruct (i <? 0)%Z eqn:Hneg'; [apply Z.ltb_lt in Hneg'; lia|].
      destruct (nth_error l (Z.to_nat i)) as [v|] eqn:E.
      * exists v; split; reflexivity.
      * apply nth_error_None in E. lia.
  - intros [Hlo|Hhi]; [|apply getitem_past_end; exact Hhi].
    destruct (i <? 0)%Z eqn:Hneg; [|apply Z.ltb_ge in Hneg; lia].
    destruct (i + Z.of_nat (length l) <? 0)%Z eqn:Hj; [reflexivity|].
    apply Z.ltb_ge in Hj. lia.
Qed.

(** X1.  The outcome of a query on a constructed sampler: [ZeroDivisionError]
    when [minX = maxX]; otherwise a stored value when the computed index is
    in [-numSamples .. numSamples - 1] (a negative one counted from the end
    of the table) and [IndexError] when it is not. *)
Theorem call_outcome {A : Type} (f : R -> A) (minX maxX : R)
    (numSamples : nat) (x : R) :
  let s := FunctionSampler.init f minX maxX numSamples in
  let i := FunctionSampler.index s x in
  let N := Z.of_nat numSamples in
  (minX = maxX -> FunctionSampler.call s x = Raise ZeroDivisionError)
  /\ (minX <> maxX -> (- N <= i < N)%Z ->
      exists v,
        FunctionSampler.call s x = Ok v
        /\ nth_error (FunctionSampler.image s)
             (Z.to_nat (if (i <? 0)%Z then i + N else i)) = Some v)
  /\ (minX <> maxX -> (i < - N \/ N <= i)%Z ->
      FunctionSampler.call s x = Raise IndexError).
Proof.
  intros s i N. unfold FunctionSampler.call.
  pose proof (init_image_length f minX maxX numSamples) as Hlen. fold s in Hlen.
  destruct (Req_dec_T (FunctionSampler.range s) 0) as [E|E]; simpl in E.
  - split; [reflexivity|]. split; intros Hne; exfalso; apply Hne; lra.
  - split; [intros Heq; exfalso; apply E; lra|].
    destruct (getitem_outcome (FunctionSampler.image s) i) as [Hin Hout].
    rewrite Hlen in Hin, Hout. fold N in Hin, Hout.
    split; intros _ Hi; [apply Hin | apply Hout]; exact Hi.
Qed.


Section SamplerBehaviour.

Context {A : Type}.
Variable f : R -> A.

Lemma call_at_index (a b : R) (N : nat) (x : R) (k : nat) :
  a <> b -> (k < N)%nat ->
  FunctionSampler.index (FunctionSampler.init f a b N) x = Z.of_nat k ->
  FunctionSampler.call (FunctionSampler.init f a b N) x
  = Ok (f (nth k (linspace a b N) 0)).
Proof.
  intros Hab Hk Hi. unfold FunctionSampler.call.
  destruct (Req_dec_T (FunctionSampler.range (FunctionSampler.init f a b N)) 0)
    as [E|_]; [simpl in E; exfalso; apply Hab; lra|].
  rewrite Hi. cbn [FunctionSampler.image FunctionSampler.init].
  rewrite (getitem_nat _ k (f 0)) by (rewrite length_map, linspace_length; exact Hk).
  f_equal. apply map_nth.
Qed.

Lemma wide_sampler_reads (minX maxX : R) (numSamples : nat) (x : R) :
  1 <= maxX - minX -> maxX - minX < 2 * INR numSamples ->
  let s := FunctionSampler.init f minX maxX numSamples in
  exists k,
    (k < numSamples)%nat
    /\ FunctionSampler.index s x = Z.of_nat k
    /\ FunctionSampler.call s x = Ok (f (nth k (FunctionSampler.domain s) 0)).
Proof.
  intros Hw HN s.
  pose proof (index_bounds f minX maxX numSamples x Hw HN) as Hi. fold s in Hi.
  exists (Z.to_nat (FunctionSampler.index s x)).
  assert (Hk : FunctionSampler.index s x
               = Z.of_nat (Z.to_nat (FunctionSampler.index s x)))
    by (rewrite Z2Nat.id; lia).
  split; [lia|]. split; [exact Hk|].
  apply call_at_index; [lra | lia | exact Hk].
Qed.




(** X3.  The index is monotone: on a sampler with [minX < maxX] a larger
    query never reads an earlier entry. *)
Theorem index_monotone (minX maxX : R) (numSamples : nat) (x y : R) :
  minX < maxX -> x <= y ->
  (FunctionSampler.index (FunctionSampler.init f minX maxX numSamples) x
   <= FunctionSampler.index (FunctionSampler.init f minX maxX numSamples) y)%Z.
Proof.
  intros Hab Hxy. unfold FunctionSampler.index.
  cbn [FunctionSampler.minX FunctionSampler.maxX FunctionSampler.numSamples
       FunctionSampler.range FunctionSampler.init].
  apply round_monotone. apply Rmult_le_compat_r.
  - apply Rmult_le_pos; [apply pos_INR|].
    apply Rlt_le, Rinv_0_lt_compat. lra.
  - apply Rplus_le_compat_r. apply Rle_min_compat_r. apply Rle_max_compat_r.
    exact Hxy.
Qed.

(** X4.  A sampler narrower than one unit is constant: the clamp bound
    [maxX - 1] lies below [minX], every query is moved to it and all
    queries have the same outcome. *)
Theorem narrow_sampler_constant (minX maxX : R) (numSamples : nat) (x y : R) :
  maxX - minX < 1 ->
  let s := FunctionSampler.init f minX maxX numSamples in
  FunctionSampler.index s x
  = Py.round ((maxX - 1 - minX) * (INR numSamples / (maxX - minX)))
  /\ FunctionSampler.call s x = FunctionSampler.call s y.
Proof.
  intros Hw s.
  assert (Hidx : forall z,
            FunctionSampler.index s z
            = Py.round ((maxX - 1 - minX) * (INR numSamples / (maxX - minX)))).
  { intros z. unfold FunctionSampler.index.
    cbn [FunctionSampler.minX FunctionSampler.maxX FunctionSampler.numSamples
         FunctionSampler.range s FunctionSampler.init].
    rewrite Rmin_right; [reflexivity|].
    apply Rle_trans with minX; [lra | apply Rmax_r]. }
  split; [apply Hidx|].
  apply call_index_eq. rewrite (Hidx x), (Hidx y). reflexivity.
Qed.

End SamplerBehaviour.


Lemma index_monotone_witness :
  0 < 3 /\ 1 <= 2
  /\ (FunctionSampler.index (FunctionSampler.init (fun x : R => x) 0 3 4) 1
      <= FunctionSampler.index (FunctionSampler.init (fun x : R => x) 0 3 4) 2)%Z.
Proof.
  assert (H1 : 0 < 3) by lra.
  assert (H2 : 1 <= 2) by lra.
  split; [exact H1|]. split; [exact H2|].
  apply (index_monotone (fun x : R => x) 0 3 4 1 2 H1 H2).
Defined.

Lemma narrow_sampler_constant_witness :
  1 / 2 - 0 < 1
  /\ let s := FunctionSampler.init (fun x : R => x) 0 (1 / 2) 10 in
     FunctionSampler.index s 0
     = Py.round ((1 / 2 - 1 - 0) * (INR 10 / (1 / 2 - 0)))
     /\ FunctionSampler.call s 0 = FunctionSampler.call s 7.
Proof.
  assert (H1 : 1 / 2 - 0 < 1) by lra.
  split; [exact H1|].
  apply (narrow_sampler_constant (fun x : R => x) 0 (1 / 2) 10 0 7 H1).
Defined.

(** ** FunctionSampler: which sample a query reads *)

Section SamplerAccuracy.

Context {A : Type}.
Variable f : R -> A.

Lemma index_unclamped (a b : R) (N : nat) (x : R) :
  a <= x <= b - 1 ->
  FunctionSampler.index (FunctionSampler.init f a b N) x
  = Py.round ((x - a) * (INR N / (b - a))).
Proof.
  intros [Hlo Hhi]. unfold FunctionSampler.index.
  cbn [FunctionSampler.minX FunctionSampler.maxX FunctionSampler.numSamples
       FunctionSampler.range FunctionSampler.init].
  rewrite Rmax_left by exact Hlo. rewrite Rmin_left by exact Hhi. reflexivity.
Qed.

Lemma point_distance (minX maxX : R) (numSamples : nat) (x : R) :
  (2 <= numSamples)%nat ->
  1 <= maxX - minX -> maxX - minX < 2 * INR numSamples ->
  minX <= x <= maxX - 1 ->
  let s := FunctionSampler.init f minX maxX numSamples in
  exists p,
    In p (FunctionSampler.domain s)
    /\ FunctionSampler.call s x = Ok (f p)
    /\ - ((maxX - minX) / 2) / INR (numSamples - 1) <= p - x
    /\ p - x <= (3 * (maxX - minX) / 2 - 1) / INR (numSamples - 1).
Proof.
  intros HN2 Hw HN Hx s.
  destruct (wide_sampler_reads f minX maxX numSamples x Hw HN)
    as [k [Hk [Hi Hc]]].
  fold s in Hi, Hc.
  exists (nth k (FunctionSampler.domain s) 0).
  split; [apply nth_In; unfold s; simpl; rewrite linspace_length; exact Hk|].
  split; [exact Hc|].
  unfold s at 1 2. cbn [FunctionSampler.domain FunctionSampler.init].
  rewrite linspace_nth by exact Hk.
  unfold s in Hi. rewrite index_unclamped in Hi by exact Hx.
  pose proof (round_bounds ((x - minX) * (INR numSamples / (maxX - minX))))
    as [Hlo Hhi].
  rewrite Hi, <- INR_IZR_INZ in Hlo, Hhi.
  assert (HM : INR (numSamples - 1) = INR numSamples - 1)
    by (rewrite minus_INR by lia; reflexivity).
  assert (HMpos : 0 < INR (numSamples - 1)) by (apply lt_0_INR; lia).
  clear Hi Hc s.
  remember (INR numSamples) as K eqn:EK.
  remember (INR (numSamples - 1)) as M eqn:EM.
  remember (INR k) as i eqn:Ei.
  clear EK EM Ei.
  assert (E : minX + i * ((maxX - minX) / M) - x
              = ((maxX - minX) * (i - (x - minX) * (K / (maxX - minX)))
                 + (x - minX)) / M).
  { replace K with (M + 1) by lra. field. lra. }
  assert (Hnum : - ((maxX - minX) / 2)
                 <= (maxX - minX) * (i - (x - minX) * (K / (maxX - minX)))
                    + (x - minX)
                 <= 3 * (maxX - minX) / 2 - 1).
  { split; nra. }
  rewrite E. unfold Rdiv at 1 4.
  split; apply Rmult_le_compat_r;
    try (apply Rlt_le, Rinv_0_lt_compat, HMpos); lra.
Qed.



End SamplerAccuracy.



(** ** FunctionSampler: the ends of the domain *)

(** The half of DomainClamp that the code keeps: on a sampler at least one
    unit wide every query at or below [minX] returns the first sample. *)
Lemma lower_clamp_first_sample {A : Type} (f : R -> A) (a b : R) (N : nat)
    (x : R) :
  1 <= b - a -> (1 <= N)%nat -> x <= a ->
  FunctionSampler.call (FunctionSampler.init f a b N) x = Ok (f a).
Proof.
  intros Hw HN Hx.
  assert (Hi : FunctionSampler.index (FunctionSampler.init f a b N) x = Z.of_nat 0).
  { rewrite (index_below (FunctionSampler.init f a b N) x) by (simpl; exact Hx).
    cbn [FunctionSampler.minX FunctionSampler.init].
    rewrite index_unclamped by lra.
    apply round_unique. simpl IZR. replace ((a - a) * (INR N / (b - a))) with 0 by ring.
    lra. }
  rewrite (call_at_index f a b N x 0) by (try lra; try lia; exact Hi).
  rewrite linspace_nth by lia. do 2 f_equal. simpl INR. ring.
Qed.

Lemma table_last_sample {A : Type} (f : R -> A) :
  Py.getitem (FunctionSampler.image (FunctionSampler.init f (-15) 15 2000)) (-1)
  = Ok (f 15).
Proof.
  destruct (getitem_outcome
              (FunctionSampler.image (FunctionSampler.init f (-15) 15 2000)) (-1))
    as [Hin _].
  rewrite init_image_length in Hin.
  destruct Hin as [v [Hg Hnth]]; [lia|].
  rewrite Hg. f_equal.
  change (Z.to_nat (if (-1 <? 0)%Z then -1 + Z.of_nat 2000 else -1))
    with 1999%nat in Hnth.
  assert (Hval : nth_error
                   (FunctionSampler.image (FunctionSampler.init f (-15) 15 2000))
                   1999 = Some (f 15)).
  { cbn [FunctionSampler.image FunctionSampler.init].
    rewrite nth_error_map.
    rewrite (nth_error_nth' _ 0) by (rewrite linspace_length; lia).
    rewrite linspace_nth by lia.
    cbn [option_map]. do 2 f_equal.
    change (2000 - 1)%nat with 1999%nat.
    rewrite !INR_IZR_INZ. simpl Z.of_nat. field. }
  congruence.
Qed.

(** C5 (the code departs from it).  On a basis table (minX = -15,
    maxX = 15, 2000 samples) the query [minX - 100] returns the first
    stored sample, [image[0]], the value of [f] at -15; the query
    [maxX + 100] is clamped to [maxX - 1 = 14] and returns entry 1933, the
    value of [f] at [-15 + 1933 * 30 / 1999], a point below 14.01, and not
    the last stored sample [image[-1]], the value of [f] at 15.  With the
    identity for [f] the two differ, so the table does not clamp to its
    boundary samples. *)
Theorem upper_clamp_reads_inner_sample {A : Type} (f : R -> A) :
  let s := FunctionSampler.init f (-15) 15 2000 in
  FunctionSampler.call s (-15 - 100) = Ok (f (-15))
  /\ Py.getitem (FunctionSampler.image s) 0 = Ok (f (-15))
  /\ FunctionSampler.index s (15 + 100) = 1933%Z
  /\ FunctionSampler.call s (15 + 100) = Ok (f (-15 + 1933 * (30 / 1999)))
  /\ Py.getitem (FunctionSampler.image s) (-1) = Ok (f 15)
  /\ -15 + 1933 * (30 / 1999) < 14 + 1 / 100
  /\ ~ clamps_to_boundary_samples
        (FunctionSampler.init (fun x : R => x) (-15) 15 2000).
Proof.
  intros s. destruct table_width as [Hw _].
  assert (Hlow : forall (B : Type) (g : R -> B),
            FunctionSampler.call (FunctionSampler.init g (-15) 15 2000) (-15 - 100)
            = Ok (g (-15))).
  { intros B g. apply lower_clamp_first_sample; [exact Hw | lia | lra]. }
  assert (Hup : forall (B : Type) (g : R -> B),
            FunctionSampler.index (FunctionSampler.init g (-15) 15 2000) (15 + 100)
            = 1933%Z
            /\ FunctionSampler.call (FunctionSampler.init g (-15) 15 2000) (15 + 100)
               = Ok (g (-15 + 1933 * (30 / 1999)))).
  { intros B g. apply (table_upper_clamp g (15 + 100)). lra. }
  split; [apply Hlow|].
  split.
  { unfold s. cbn [FunctionSampler.image FunctionSampler.init].
    rewrite (getitem_nat _ 0 (f 0)) by (rewrite length_map, linspace_length; lia).
    rewrite (map_nth f), linspace_nth by lia. f_equal. f_equal. simpl INR. ring. }
  split; [apply (Hup A f)|]. split; [apply (Hup A f)|].
  split; [apply table_last_sample|].
  split; [lra|].
  intros [_ Hlast].
  cbn [FunctionSampler.maxX FunctionSampler.init] in Hlast.
  rewrite (proj2 (Hup R (fun x : R => x))) in Hlast.
  rewrite (table_last_sample (fun x : R => x)) in Hlast.
  injection Hlast as Hlast. lra.
Qed.

(** C6 (the code departs from it).  The 2000 points of a basis table are
    the points of [numpy.linspace] with its endpoint: 30/1999 apart, the
    last one [maxX = 15] itself, so they are not 2000 points of the
    half-open interval [[-15, 15)]; and the lookup, which scales by
    [numSamples / range] as for points 30/2000 apart, reads at the sample
    point number 1000 the entry of the point number 1001. *)
Theorem table_sampling_closed {A : Type} (f : R -> A) :
  let s := FunctionSampler.init f (-15) 15 2000 in
  length (FunctionSampler.domain s) = 2000%nat
  /\ last (FunctionSampler.domain s) 0 = 15
  /\ nth 1 (FunctionSampler.domain s) 0 - nth 0 (FunctionSampler.domain s) 0
     = 30 / 1999
  /\ ~ samples_half_open f (-15) 15 2000 s
  /\ FunctionSampler.call s (nth 1000 (FunctionSampler.domain s) 0)
     = Ok (f (nth 1001 (FunctionSampler.domain s) 0)).
Proof.
  intros s. unfold s. cbn [FunctionSampler.domain FunctionSampler.init].
  split; [apply linspace_length|].
  split; [apply linspace_last; lia|].
  split.
  { rewrite !linspace_nth by lia. change (2000 - 1)%nat with 1999%nat.
    rewrite !INR_IZR_INZ. simpl Z.of_nat. field. }
  split.
  { intros [_ [Hin _]].
    assert (H : -15 <= 15 < 15).
    { apply Hin. cbn [FunctionSampler.domain FunctionSampler.init].
      apply linspace_stop_sampled. lia. }
    lra. }
  assert (Hp : nth 1000 (linspace (-15) 15 2000) 0 = -15 + 1000 * (30 / 1999)).
  { rewrite linspace_nth by lia. change (2000 - 1)%nat with 1999%nat.
    rewrite !INR_IZR_INZ. simpl Z.of_nat. field. }
  apply call_at_index; [lra | lia |].
  rewrite Hp, index_unclamped by lra.
  apply round_unique. rewrite INR_IZR_INZ. simpl Z.of_nat. lra.
Qed.

(** ** HilbertSpace: modes, bases and the closed form *)

Lemma eigenbasis_table (dim : nat) (V : option (R -> R)) (n : nat) (x : R) :
  (n < dim)%nat ->
  HilbertSpace.eigenbasis (HilbertSpace.init dim "QHO" V) n x
  = FunctionSampler.call
      (FunctionSampler.init (fun x => HilbertSpace.QHOBasis n x) (-15) 15 2000) x.
Proof.
  intros Hn. unfold HilbertSpace.eigenbasis. rewrite QHO_tables.
  rewrite nth_error_map, nth_error_seq.
  destruct (Nat.ltb_spec n dim) as [_|Hge]; [|lia].
  reflexivity.
Qed.

Lemma INR_1999 : INR (2000 - 1) = 1999.
Proof. change (2000 - 1)%nat with 1999%nat. rewrite INR_IZR_INZ. reflexivity. Qed.

(** X7.  The mode index of [eigenbasis(n, x)]: for n < dim the call returns
    the closed form of mode n at one of the 2000 points of its table, for
    n >= dim it raises [IndexError]. *)
Theorem eigenbasis_mode_range (dim : nat) (V : option (R -> R)) (n : nat)
    (x : R) :
  ((n < dim)%nat ->
   exists k,
     (k < 2000)%nat
     /\ HilbertSpace.eigenbasis (HilbertSpace.init dim "QHO" V) n x
        = Ok (HilbertSpace.QHOBasis n (nth k (linspace (-15) 15 2000) 0)))
  /\ ((dim <= n)%nat ->
      HilbertSpace.eigenbasis (HilbertSpace.init dim "QHO" V) n x
      = Raise IndexError).
Proof.
  split; [|apply eigenbasis_past_dim].
  intros Hn. rewrite eigenbasis_table by exact Hn.
  destruct table_width as [Hw HN].
  destruct (wide_sampler_reads (fun x => HilbertSpace.QHOBasis n x)
              (-15) 15 2000 x Hw HN) as [k [Hk [_ Hc]]].
  exists k. split; [exact Hk | exact Hc].
Qed.

(** X8.  [eigenbasis(n, x)] for n < dim and x in [[-15, 14]] is the closed
    form of mode n at a point p of the table with
    [-15/1999 <= p - x <= 44/1999]. *)
Theorem eigenbasis_near_query (dim : nat) (V : option (R -> R)) (n : nat)
    (x : R) :
  (n < dim)%nat -> -15 <= x <= 14 ->
  exists p,
    HilbertSpace.eigenbasis (HilbertSpace.init dim "QHO" V) n x
    = Ok (HilbertSpace.QHOBasis n p)
    /\ - (15 / 1999) <= p - x <= 44 / 1999.
Proof.
  intros Hn Hx. rewrite eigenbasis_table by exact Hn.
  destruct table_width as [Hw HN].
  destruct (point_distance (fun x => HilbertSpace.QHOBasis n x)
              (-15) 15 2000 x ltac:(lia) Hw HN ltac:(lra))
    as [p [_ [Hc [Hlo Hhi]]]].
  exists p. split; [exact Hc|].
  rewrite INR_1999 in Hlo, Hhi. lra.
Qed.

Lemma eigenbasis_near_query_witness :
  (0 < 1)%nat /\ -15 <= 0 <= 14
  /\ exists p,
       HilbertSpace.eigenbasis (HilbertSpace.init 1 "QHO" None) 0 0
       = Ok (HilbertSpace.QHOBasis 0 p)
       /\ - (15 / 1999) <= p - 0 <= 44 / 1999.
Proof.
  assert (H1 : (0 < 1)%nat) by lia.
  assert (H2 : -15 <= 0 <= 14) by lra.
  split; [exact H1|]. split; [exact H2|].
  apply (eigenbasis_near_query 1 None 0 0 H1 H2).
Defined.

Section UnknownBasis.

Variable dim : nat.
Variable basis : string.
Variable V : option (R -> R).
Hypothesis not_QHO : String.eqb basis "QHO" = false.

Lemma unknown_basis_tables :
  HilbertSpace.QHOBasisApprox (HilbertSpace.init dim basis V) = None.
Proof.
  unfold HilbertSpace.init. cbn [HilbertSpace.QHOBasisApprox].
  rewrite not_QHO. reflexivity.
Qed.

Lemma unknown_basis_eigenbasis (n : nat) (x : R) :
  HilbertSpace.eigenbasis (HilbertSpace.init dim basis V) n x
  = Raise AttributeError.
Proof.
  unfold HilbertSpace.eigenbasis. rewrite unknown_basis_tables. reflexivity.
Qed.

Lemma unknown_basis_superposition (c : complex) (cs : list complex) (x t : R) :
  (1 <= dim)%nat ->
  WaveFunction.superposition (HilbertSpace.init dim basis V) (c :: cs) x t
  = Raise AttributeError.
Proof.
  intros Hd. unfold WaveFunction.superposition, Py.range.
  change (HilbertSpace.dim (HilbertSpace.init dim basis V)) with dim.
  assert (E : seq 0 dim = O :: seq 1 (dim - 1)).
  { destruct dim as [|d]; [lia|]. simpl. rewrite Nat.sub_0_r. reflexivity. }
  rewrite E. cbn [comprehension].
  rewrite unknown_basis_eigenbasis. reflexivity.
Qed.

End UnknownBasis.

(** X9.  A HilbertSpace built with a basis other than ['QHO'] has neither
    [eigenbasis] nor [eigenvalues]: both raise [AttributeError], and so
    does the construction of a WaveFunction over it from a non-empty
    coefficient vector when dim >= 1. *)
Theorem unknown_basis_raises (Q : Quadrature) (hs : HilbertSpace.t)
    (dim : nat) (basis : string) (V : option (R -> R))
    (initWaveFunc : option (R -> R)) (c : complex) (cs : list complex) :
  String.eqb basis "QHO" = false ->
  (1 <= dim)%nat ->
  (forall n x,
     HilbertSpace.eigenbasis (HilbertSpace.init dim basis V) n x
     = Raise AttributeError)
  /\ (forall n,
        HilbertSpace.eigenvalues (HilbertSpace.init dim basis V) n
        = Raise AttributeError)
  /\ WaveFunction.init Q hs (HilbertSpace.init dim basis V) initWaveFunc
       (Some (c :: cs))
     = Raise AttributeError.
Proof.
  intros Hb Hd.
  split; [intros n x; apply unknown_basis_eigenbasis; exact Hb|].
  split.
  - intros n. unfold HilbertSpace.eigenvalues.
    rewrite unknown_basis_tables by exact Hb. reflexivity.
  - unfold WaveFunction.init, WaveFunction.normalize. rewrite bind_Ok.
    rewrite (quad_raises Q _ AttributeError); [reflexivity|].
    intros x. rewrite unknown_basis_superposition by assumption. reflexivity.
Qed.

Lemma unknown_basis_raises_witness :
  String.eqb "box" "QHO" = false
  /\ (1 <= 2)%nat
  /\ (forall n x,
        HilbertSpace.eigenbasis (HilbertSpace.init 2 "box" None) n x
        = Raise AttributeError)
  /\ (forall n,
        HilbertSpace.eigenvalues (HilbertSpace.init 2 "box" None) n
        = Raise AttributeError)
  /\ WaveFunction.init three_point_rule (HilbertSpace.init 2 "QHO" None)
       (HilbertSpace.init 2 "box" None) None (Some [RtoC 1; RtoC 1])
     = Raise AttributeError.
Proof.
  assert (H1 : String.eqb "box" "QHO" = false) by reflexivity.
  assert (H2 : (1 <= 2)%nat) by lia.
  split; [exact H1|]. split; [exact H2|].
  apply (unknown_basis_raises three_point_rule (HilbertSpace.init 2 "QHO" None)
           2 "box" None None (RtoC 1) [RtoC 1] H1 H2).
Defined.

(** The parity of the Hermite polynomials. *)
Lemma hermite_pair_parity (n : nat) (x : R) :
  hermite_pair n (- x)
  = ((-1) ^ n * fst (hermite_pair n x), (-1) ^ S n * snd (hermite_pair n x)).
Proof.
  induction n as [|n IH].
  - simpl. f_equal; ring.
  - cbn [hermite_pair]. rewrite IH.
    destruct (hermite_pair n x) as [a b]. cbn [fst snd].
    f_equal. rewrite <- !tech_pow_Rmult. ring.
Qed.

(** X10.  The closed form of mode n is even for even n and odd for odd n:
    QHOBasis(n, -x) = (-1)^n QHOBasis(n, x). *)
Theorem QHOBasis_parity (n : nat) (x : R) :
  HilbertSpace.QHOBasis n (- x) = (-1) ^ n * HilbertSpace.QHOBasis n x.
Proof.
  unfold HilbertSpace.QHOBasis, hermite.
  rewrite hermite_pair_parity. cbn [fst].
  replace (- (- x) ^ 2 / 2) with (- x ^ 2 / 2) by (simpl; field).
  ring.
Qed.

(** ** WaveFunction: the arguments of the constructor *)

Lemma Csum_ext (g h : nat -> complex) (n : nat) :
  (forall k, (k < n)%nat -> g k = h k) -> Csum g n = Csum h n.
Proof.
  induction n as [|n IH]; intros H; [reflexivity|].
  simpl. rewrite IH by (intros k Hk; apply H; lia).
  rewrite (H n) by lia. reflexivity.
Qed.

Lemma spectral_raw_ext (dim : nat) (c1 c2 : nat -> complex)
    (eb : nat -> R -> R) (x t : R) :
  (forall n, (n < dim)%nat -> c1 n = c2 n) ->
  spectral_raw dim c1 eb x t = spectral_raw dim c2 eb x t.
Proof.
  intros H. unfold spectral_raw. apply Csum_ext.
  intros n Hn. rewrite (H n Hn). reflexivity.
Qed.

Lemma spectral_evaluate_ext (Q : Quadrature) (dim : nat)
    (c1 c2 : nat -> complex) (eb : nat -> R -> R) (x t : R) :
  (forall n, (n < dim)%nat -> c1 n = c2 n) ->
  spectral_evaluate Q dim c1 eb x t = spectral_evaluate Q dim c2 eb x t.
Proof.
  intros H. unfold spectral_evaluate, spectral_normF.
  rewrite (spectral_raw_ext dim c1 c2 eb x t H).
  replace (fun x0 => Cmod (spectral_raw dim c1 eb x0 0) ^ 2)
    with (fun x0 => Cmod (spectral_raw dim c2 eb x0 0) ^ 2); [reflexivity|].
  apply functional_extensionality. intros x0.
  rewrite (spectral_raw_ext dim c1 c2 eb x0 0 H). reflexivity.
Qed.

(** X11.  A coefficient vector shorter than the dimension makes the
    constructor raise [IndexError]: the normalization evaluates the
    superposition, which reads [coeff[n]] for every n < dim. *)
Theorem short_coefficients_raise (Q : Quadrature) (hs : HilbertSpace.t)
    (dim : nat) (V : option (R -> R)) (initWaveFunc : option (R -> R))
    (coeff : list complex) :
  (length coeff < dim)%nat ->
  WaveFunction.init Q hs (HilbertSpace.init dim "QHO" V) initWaveFunc
    (Some coeff)
  = Raise IndexError.
Proof.
  intros Hlen. unfold WaveFunction.init. rewrite bind_Ok.
  rewrite normalize_short by exact Hlen. reflexivity.
Qed.

Lemma short_coefficients_raise_witness :
  (length [RtoC 1] < 2)%nat
  /\ WaveFunction.init three_point_rule (HilbertSpace.init 2 "QHO" None)
       (HilbertSpace.init 2 "QHO" None) None (Some [RtoC 1])
     = Raise IndexError.
Proof.
  assert (H : (length [RtoC 1] < 2)%nat) by (simpl; lia).
  split; [exact H|].
  apply (short_coefficients_raise three_point_rule
           (HilbertSpace.init 2 "QHO" None) 2 None None [RtoC 1] H).
Defined.

(** X12.  Coefficients beyond the dimension are never read: appending
    entries to a coefficient vector of length dim changes no value of the
    evaluator. *)
Theorem extra_coefficients_ignored (Q : Quadrature) (hs : HilbertSpace.t)
    (dim : nat) (V : option (R -> R)) (initWaveFunc : option (R -> R))
    (coeff more : list complex) (x t : R) :
  length coeff = dim ->
  exists v,
    WaveFunction.evaluate_at
      (WaveFunction.init Q hs (HilbertSpace.init dim "QHO" V) initWaveFunc
         (Some coeff)) x t = Ok v
    /\ WaveFunction.evaluate_at
         (WaveFunction.init Q hs (HilbertSpace.init dim "QHO" V) initWaveFunc
            (Some (coeff ++ more))) x t = Ok v.
Proof.
  intros Hlen.
  destruct (init_explicit Q hs dim V initWaveFunc coeff)
    as [wf1 [Hi1 [_ [_ He1]]]]; [lia|].
  destruct (init_explicit Q hs dim V initWaveFunc (coeff ++ more))
    as [wf2 [Hi2 [_ [_ He2]]]]; [rewrite length_app; lia|].
  eexists. rewrite Hi1, Hi2. unfold WaveFunction.evaluate_at.
  rewrite !bind_Ok, He1, He2. split; [reflexivity|].
  f_equal. apply spectral_evaluate_ext.
  intros n Hn. apply app_nth1. lia.
Qed.

Lemma extra_coefficients_ignored_witness :
  length [RtoC 1] = 1%nat
  /\ exists v,
       WaveFunction.evaluate_at
         (WaveFunction.init three_point_rule (HilbertSpace.init 1 "QHO" None)
            (HilbertSpace.init 1 "QHO" None) None (Some [RtoC 1])) 0 0 = Ok v
       /\ WaveFunction.evaluate_at
            (WaveFunction.init three_point_rule (HilbertSpace.init 1 "QHO" None)
               (HilbertSpace.init 1 "QHO" None) None
               (Some ([RtoC 1] ++ [RtoC 5]))) 0 0 = Ok v.
Proof.
  split; [reflexivity|].
  apply (extra_coefficients_ignored three_point_rule
           (HilbertSpace.init 1 "QHO" None) 1 None None [RtoC 1] [RtoC 5] 0 0).
  reflexivity.
Defined.

(** X13.  Called with neither coefficients nor an initial waveform (both
    defaults [None]), the constructor raises [TypeError] at the first call
    of the missing waveform, when [hs] and the space have a mode. *)
Theorem no_arguments_raise (Q : Quadrature) (hs : HilbertSpace.t) (dim : nat)
    (V : option (R -> R)) :
  (1 <= HilbertSpace.dim hs)%nat -> (1 <= dim)%nat ->
  WaveFunction.init Q hs (HilbertSpace.init dim "QHO" V) None None
  = Raise TypeError.
Proof.
  intros Hg Hd. unfold WaveFunction.init.
  unfold WaveFunction.orthogonalBasisProjection, Py.range.
  assert (E : seq 0 (HilbertSpace.dim hs)
              = O :: seq 1 (HilbertSpace.dim hs - 1)).
  { destruct (HilbertSpace.dim hs) as [|d]; [lia|].
    simpl. rewrite Nat.sub_0_r. reflexivity. }
  rewrite E. cbn [comprehension].
  rewrite (quad_raises Q _ TypeError); [reflexivity|].
  intros x. rewrite eigenbasis_QHO by lia. reflexivity.
Qed.

Lemma no_arguments_raise_witness :
  (1 <= HilbertSpace.dim (HilbertSpace.init 2 "QHO" None))%nat
  /\ (1 <= 2)%nat
  /\ WaveFunction.init three_point_rule (HilbertSpace.init 2 "QHO" None)
       (HilbertSpace.init 2 "QHO" None) None None
     = Raise TypeError.
Proof.
  assert (H1 : (1 <= HilbertSpace.dim (HilbertSpace.init 2 "QHO" None))%nat)
    by (simpl; lia).
  assert (H2 : (1 <= 2)%nat) by lia.
  split; [exact H1|]. split; [exact H2|].
  apply (no_arguments_raise three_point_rule (HilbertSpace.init 2 "QHO" None)
           2 None H1 H2).
Defined.

(** X14.  Construction from an initial waveform when the module-level [hs]
    is the space passed to the constructor: the constructor returns, the
    stored coefficients are the projection integrals
    [quad(conj(eigenbasis(n, x)) psi0(x))] for n < dim, and the evaluator is
    the normalized sum over them. *)
Theorem projection_construction (Q : Quadrature) (dim : nat)
    (V : option (R -> R)) (psi0 : R -> R) :
  let H := HilbertSpace.init dim "QHO" V in
  exists wf,
    WaveFunction.init Q H H (Some psi0) None = Ok wf
    /\ WaveFunction.coeff wf = projection_coefficients Q H psi0
    /\ length (WaveFunction.coeff wf) = dim
    /\ forall x t,
         WaveFunction.evaluate wf x t
         = Ok (spectral_evaluate Q dim
                 (fun n => nth n (projection_coefficients Q H psi0) (RtoC 0))
                 (eigenbasis_value H) x t).
Proof.
  intros H.
  assert (Hlen : length (projection_coefficients Q H psi0) = dim).
  { unfold projection_coefficients. rewrite length_map, length_seq.
    reflexivity. }
  unfold WaveFunction.init.
  unfold H at 1 2. rewrite projection_own_space. fold H. rewrite bind_Ok.
  unfold H at 1. rewrite normalize_QHO by (fold H; lia). rewrite bind_Ok.
  eexists. split; [reflexivity|].
  cbn [WaveFunction.coeff WaveFunction.evaluate].
  split; [reflexivity|]. split; [exact Hlen|].
  intros x t. unfold H at 1. rewrite superposition_QHO by (fold H; lia).
  reflexivity.
Qed.

(** X15.  Construction from an initial waveform when the module-level [hs]
    has more modes than the space passed to the constructor: the projection
    asks the space for a mode it does not have and the constructor raises
    [IndexError]. *)
Theorem projection_beyond_space (Q : Quadrature) (hs : HilbertSpace.t)
    (dim : nat) (V : option (R -> R)) (psi0 : R -> R) :
  (dim < HilbertSpace.dim hs)%nat ->
  WaveFunction.orthogonalBasisProjection Q hs (HilbertSpace.init dim "QHO" V)
    (Some psi0) = Raise IndexError
  /\ WaveFunction.init Q hs (HilbertSpace.init dim "QHO" V) (Some psi0) None
     = Raise IndexError.
Proof.
  intros Hd.
  pose proof (projection_past_dim Q hs dim V psi0 Hd) as Hp.
  split; [exact Hp|].
  unfold WaveFunction.init. rewrite Hp. reflexivity.
Qed.

Lemma projection_beyond_space_witness :
  (1 < HilbertSpace.dim (HilbertSpace.init 2 "QHO" None))%nat
  /\ WaveFunction.orthogonalBasisProjection three_point_rule
       (HilbertSpace.init 2 "QHO" None) (HilbertSpace.init 1 "QHO" None)
       (Some (fun x : R => x)) = Raise IndexError
  /\ WaveFunction.init three_point_rule (HilbertSpace.init 2 "QHO" None)
       (HilbertSpace.init 1 "QHO" None) (Some (fun x : R => x)) None
     = Raise IndexError.
Proof.
  assert (H : (1 < HilbertSpace.dim (HilbertSpace.init 2 "QHO" None))%nat)
    by (simpl; lia).
  split; [exact H|].
  apply (projection_beyond_space three_point_rule
           (HilbertSpace.init 2 "QHO" None) 1 None (fun x : R => x) H).
Defined.

(** ** WaveFunction: evolution in time *)

Lemma Cmult_opp_r (z u : complex) : Cmult z (Copp u) = Copp (Cmult z u).
Proof. unfold Cmult, Copp; simpl. f_equal; ring. Qed.

Lemma Cmult_opp_l (z u : complex) : Cmult (Copp z) u = Copp (Cmult z u).
Proof. unfold Cmult, Copp; simpl. f_equal; ring. Qed.

Lemma Cplus_opp (z u : complex) :
  Cplus (Copp z) (Copp u) = Copp (Cplus z u).
Proof. unfold Cplus, Copp; simpl. f_equal; ring. Qed.

Lemma Copp_zero : RtoC 0 = Copp (RtoC 0).
Proof. unfold Copp, RtoC; simpl. f_equal; ring. Qed.

Lemma Cmod_opp (z : complex) : Cmod (Copp z) = Cmod z.
Proof. unfold Cmod, Copp; simpl. f_equal. ring. Qed.

Lemma phase_half_turn (n : nat) (t : R) :
  Cexp (Cmult (Cmult (Copp Ci) (RtoC (INR n + 1 / 2))) (RtoC (t + 2 * PI)))
  = Copp (Cexp (Cmult (Cmult (Copp Ci) (RtoC (INR n + 1 / 2))) (RtoC t))).
Proof.
  rewrite !Cexp_phase. unfold Copp; cbn [fst snd].
  replace ((INR n + 1 / 2) * (t + 2 * PI))
    with ((INR n + 1 / 2) * t + PI + 2 * INR n * PI) by field.
  f_equal.
  - rewrite !cos_neg, cos_period, neg_cos. reflexivity.
  - rewrite !sin_neg, sin_period, neg_sin. reflexivity.
Qed.

Lemma spectral_raw_half_period (dim : nat) (c : nat -> complex)
    (eb : nat -> R -> R) (x t : R) :
  spectral_raw dim c eb x (t + 2 * PI) = Copp (spectral_raw dim c eb x t).
Proof.
  unfold spectral_raw. induction dim as [|dim IH].
  - apply Copp_zero.
  - cbn [Csum]. rewrite IH, phase_half_turn, Cmult_opp_r, Cplus_opp.
    reflexivity.
Qed.

Lemma spectral_evaluate_half_period (Q : Quadrature) (dim : nat)
    (c : nat -> complex) (eb : nat -> R -> R) (x t : R) :
  spectral_evaluate Q dim c eb x (t + 2 * PI)
  = Copp (spectral_evaluate Q dim c eb x t).
Proof.
  unfold spectral_evaluate, Cdiv.
  rewrite spectral_raw_half_period. apply Cmult_opp_l.
Qed.

(** X16.  Half a period.  A WaveFunction built from dim coefficients
    changes sign when the time advances by [2 pi]:
    evaluate(x, t + 2 pi) = - evaluate(x, t), so the modulus (and with it
    the probability density) has period [2 pi]. *)
Theorem evaluate_half_period (Q : Quadrature) (hs : HilbertSpace.t) (dim : nat)
    (V : option (R -> R)) (initWaveFunc : option (R -> R))
    (coeff : list complex) (x t : R) :
  length coeff = dim ->
  let psi := WaveFunction.init Q hs (HilbertSpace.init dim "QHO" V)
               initWaveFunc (Some coeff) in
  exists v w,
    WaveFunction.evaluate_at psi x t = Ok v
    /\ WaveFunction.evaluate_at psi x (t + 2 * PI) = Ok w
    /\ w = Copp v
    /\ Cmod w = Cmod v.
Proof.
  intros Hlen psi.
  destruct (init_explicit Q hs dim V initWaveFunc coeff)
    as [wf [Hi [_ [_ He]]]]; [lia|].
  unfold psi. rewrite Hi. unfold WaveFunction.evaluate_at. rewrite !bind_Ok.
  eexists. eexists. split; [apply He|]. split; [apply He|].
  rewrite spectral_evaluate_half_period. split; [reflexivity | apply Cmod_opp].
Qed.

Lemma evaluate_half_period_witness :
  length [RtoC 1; RtoC 1] = 2%nat
  /\ let psi := WaveFunction.init three_point_rule
                  (HilbertSpace.init 2 "QHO" None)
                  (HilbertSpace.init 2 "QHO" None) None
                  (Some [RtoC 1; RtoC 1]) in
     exists v w,
       WaveFunction.evaluate_at psi 0 0 = Ok v
       /\ WaveFunction.evaluate_at psi 0 (0 + 2 * PI) = Ok w
       /\ w = Copp v
       /\ Cmod w = Cmod v.
Proof.
  split; [reflexivity|].
  apply (evaluate_half_period three_point_rule (HilbertSpace.init 2 "QHO" None)
           2 None None [RtoC 1; RtoC 1] 0 0).
  reflexivity.
Defined.





(** ** Plotter: the values of a frame *)

Lemma comprehension_ext {A B : Type} (g h : A -> result B) (l : list A) :
  (forall a, g a = h a) -> comprehension g l = comprehension h l.
Proof.
  intros H. induction l as [|a l IH]; [reflexivity|].
  simpl. rewrite H, IH. reflexivity.
Qed.

Lemma nth_map_default {A B : Type} (g : A -> B) (l : list A) (k : nat)
    (d : B) (d' : A) :
  (k < length l)%nat -> nth k (map g l) d = g (nth k l d').
Proof.
  intros Hk. rewrite (nth_indep _ d (g d')) by (rewrite length_map; exact Hk).
  apply map_nth.
Qed.

Lemma Cmod_sq (z : complex) : Cmod z ^ 2 = fst z ^ 2 + snd z ^ 2.
Proof. unfold Cmod. apply pow2_sqrt. nra. Qed.

Section PlotterFacts.

Variable Q : Quadrature.
Variable hs : HilbertSpace.t.

Lemma animate_explicit (dim : nat) (V : option (R -> R))
    (initWaveFunc : option (R -> R)) (c : list complex) (samples : nat)
    (timeFactor : R) (i : nat) :
  (dim <= length c)%nat ->
  Plotter.animate_at
    (WaveFunction.init Q hs (HilbertSpace.init dim "QHO" V) initWaveFunc (Some c))
    samples timeFactor i
  = let amplitudeValues :=
      map (fun x =>
             spectral_evaluate Q dim (fun n => nth n c (RtoC 0))
               (eigenbasis_value (HilbertSpace.init dim "QHO" V))
               x (timeFactor * INR i / 50))
          (linspace (-5) 5 samples) in
    Ok {| Plotter.posValues := linspace (-5) 5 samples;
          Plotter.reValues := Plotter.np_real amplitudeValues;
          Plotter.imValues := Plotter.np_imag amplitudeValues;
          Plotter.probValues := Plotter.np_absolute_sq amplitudeValues |}.
Proof.
  intros Hlen.
  destruct (init_explicit Q hs dim V initWaveFunc c Hlen)
    as [wf [Hi [_ [_ He]]]].
  rewrite Hi. unfold Plotter.animate_at, Plotter.animate. rewrite bind_Ok.
  rewrite (comprehension_Ok _
    (fun x => spectral_evaluate Q dim (fun n => nth n c (RtoC 0))
                (eigenbasis_value (HilbertSpace.init dim "QHO" V))
                x (timeFactor * INR i / 50)))
    by (intros x _; apply He).
  reflexivity.
Qed.

End PlotterFacts.

(** X18.  A frame of the animation.  For a WaveFunction built from dim
    coefficients, [animate(i)] computes its values without an exception:
    [samples] positions from -5 to 5, as many real parts, imaginary parts
    and densities, and each density is the sum of the squares of the real
    and the imaginary part at its position. *)
Theorem animate_frame (Q : Quadrature) (hs : HilbertSpace.t) (dim : nat)
    (V : option (R -> R)) (initWaveFunc : option (R -> R))
    (coeff : list complex) (samples : nat) (timeFactor : R) (i : nat) :
  length coeff = dim ->
  exists fr,
    Plotter.animate_at
      (WaveFunction.init Q hs (HilbertSpace.init dim "QHO" V) initWaveFunc
         (Some coeff))
      samples timeFactor i = Ok fr
    /\ Plotter.posValues fr = linspace (-5) 5 samples
    /\ length (Plotter.reValues fr) = samples
    /\ length (Plotter.imValues fr) = samples
    /\ length (Plotter.probValues fr) = samples
    /\ forall k, (k < samples)%nat ->
         nth k (Plotter.probValues fr) 0
         = nth k (Plotter.reValues fr) 0 ^ 2 + nth k (Plotter.imValues fr) 0 ^ 2.
Proof.
  intros Hlen.
  rewrite (animate_explicit Q hs dim V initWaveFunc coeff samples timeFactor i)
    by lia.
  cbv zeta. eexists. split; [reflexivity|].
  cbn [Plotter.posValues Plotter.reValues Plotter.imValues Plotter.probValues].
  unfold Plotter.np_real, Plotter.np_imag, Plotter.np_absolute_sq.
  rewrite !length_map, linspace_length.
  repeat (split; [reflexivity|]).
  intros k Hk.
  set (zs := map _ (linspace (-5) 5 samples)).
  assert (Hzs : (k < length zs)%nat)
    by (unfold zs; rewrite length_map, linspace_length; exact Hk).
  rewrite (nth_map_default (fun z => Cmod z ^ 2) zs k 0 (RtoC 0) Hzs).
  rewrite (nth_map_default fst zs k 0 (RtoC 0) Hzs).
  rewrite (nth_map_default snd zs k 0 (RtoC 0) Hzs).
  apply Cmod_sq.
Qed.

Lemma animate_frame_witness :
  length [RtoC 1; RtoC 1] = 2%nat
  /\ exists fr,
       Plotter.animate_at
         (WaveFunction.init three_point_rule (HilbertSpace.init 2 "QHO" None)
            (HilbertSpace.init 2 "QHO" None) None (Some [RtoC 1; RtoC 1]))
         300 2 7 = Ok fr
       /\ Plotter.posValues fr = linspace (-5) 5 300
       /\ length (Plotter.reValues fr) = 300%nat
       /\ length (Plotter.imValues fr) = 300%nat
       /\ length (Plotter.probValues fr) = 300%nat
       /\ forall k, (k < 300)%nat ->
            nth k (Plotter.probValues fr) 0
            = nth k (Plotter.reValues fr) 0 ^ 2
              + nth k (Plotter.imValues fr) 0 ^ 2.
Proof.
  split; [reflexivity|].
  apply (animate_frame three_point_rule (HilbertSpace.init 2 "QHO" None) 2
           None None [RtoC 1; RtoC 1] 300 2 7).
  reflexivity.
Defined.

(** X20.  A single mode is stationary on the screen: for dim = 1 and
    coeff = [1] every frame is computed and all frames show the same
    probability densities, whatever the time factor. *)
Theorem single_mode_frames (Q : Quadrature) (hs : HilbertSpace.t)
    (V : option (R -> R)) (initWaveFunc : option (R -> R)) (samples : nat)
    (timeFactor : R) :
  let psi := WaveFunction.init Q hs (HilbertSpace.init 1 "QHO" V)
               initWaveFunc (Some [RtoC 1]) in
  exists densities,
    length densities = samples
    /\ forall i,
         (fr <- Plotter.animate_at psi samples timeFactor i ;;
          Ok (Plotter.probValues fr))
         = Ok densities.
Proof.
  intros psi.
  exists (map (fun x =>
                 Cmod (spectral_evaluate Q 1 (fun n => nth n [RtoC 1] (RtoC 0))
                         (eigenbasis_value (HilbertSpace.init 1 "QHO" V)) x 0) ^ 2)
              (linspace (-5) 5 samples)).
  split; [rewrite length_map; apply linspace_length|].
  intros i. unfold psi.
  rewrite (animate_explicit Q hs 1 V initWaveFunc [RtoC 1] samples timeFactor i)
    by (simpl; lia).
  cbv zeta. rewrite bind_Ok. cbn [Plotter.probValues].
  unfold Plotter.np_absolute_sq. rewrite map_map. f_equal.
  apply map_ext. intros x.
  rewrite (single_mode_phase Q _ x (timeFactor * INR i / 50)).
  rewrite Cmod_mult_phase. reflexivity.
Qed.

(** ** WaveFunction: positions beyond the tables, phases *)

Lemma eigenbasis_same_index (dim : nat) (basis : string)
    (V : option (R -> R)) (n : nat) (x y : R) :
  (forall s : FunctionSampler.t R,
     FunctionSampler.minX s = -15 -> FunctionSampler.maxX s = 15 ->
     FunctionSampler.index s x = FunctionSampler.index s y) ->
  HilbertSpace.eigenbasis (HilbertSpace.init dim basis V) n x
  = HilbertSpace.eigenbasis (HilbertSpace.init dim basis V) n y.
Proof.
  intros Hidx. unfold HilbertSpace.eigenbasis, HilbertSpace.init.
  cbn [HilbertSpace.QHOBasisApprox].
  destruct (String.eqb basis "QHO"); [|reflexivity].
  rewrite nth_error_map.
  destruct (nth_error (Py.range dim) n) as [m|]; [|reflexivity].
  cbn [option_map]. apply call_index_eq. apply Hidx; reflexivity.
Qed.

Lemma superposition_same_index (dim : nat) (basis : string)
    (V : option (R -> R)) (c : list complex) (x y t : R) :
  (forall s : FunctionSampler.t R,
     FunctionSampler.minX s = -15 -> FunctionSampler.maxX s = 15 ->
     FunctionSampler.index s x = FunctionSampler.index s y) ->
  WaveFunction.superposition (HilbertSpace.init dim basis V) c x t
  = WaveFunction.superposition (HilbertSpace.init dim basis V) c y t.
Proof.
  intros Hidx. unfold WaveFunction.superposition. f_equal.
  apply comprehension_ext. intros n.
  rewrite (eigenbasis_same_index dim basis V n x y Hidx). reflexivity.
Qed.

Lemma evaluate_same_index (Q : Quadrature) (hs : HilbertSpace.t) (dim : nat)
    (basis : string) (V : option (R -> R)) (initWaveFunc : option (R -> R))
    (coeff : option (list complex)) (x y t : R) :
  (forall s : FunctionSampler.t R,
     FunctionSampler.minX s = -15 -> FunctionSampler.maxX s = 15 ->
     FunctionSampler.index s x = FunctionSampler.index s y) ->
  WaveFunction.evaluate_at
    (WaveFunction.init Q hs (HilbertSpace.init dim basis V) initWaveFunc coeff)
    x t
  = WaveFunction.evaluate_at
      (WaveFunction.init Q hs (HilbertSpace.init dim basis V) initWaveFunc coeff)
      y t.
Proof.
  intros Hidx. unfold WaveFunction.evaluate_at, WaveFunction.init.
  destruct (match coeff with
            | Some c => Ok c
            | None => WaveFunction.orthogonalBasisProjection Q hs
                        (HilbertSpace.init dim basis V) initWaveFunc
            end) as [c|e]; [|reflexivity].
  rewrite !bind_Ok.
  destruct (WaveFunction.normalize Q _) as [normF|e]; [|reflexivity].
  rewrite !bind_Ok. cbn [WaveFunction.evaluate].
  rewrite (superposition_same_index dim basis V c x y t Hidx). reflexivity.
Qed.

(** X21.  Beyond the tables the wave function is constant in x: for every
    construction, [evaluate(x, t)] at x >= 14 is [evaluate(14, t)] and at
    x <= -15 is [evaluate(-15, t)] (the same value or the same exception). *)
Theorem evaluate_constant_tails (Q : Quadrature) (hs : HilbertSpace.t)
    (dim : nat) (basis : string) (V : option (R -> R))
    (initWaveFunc : option (R -> R)) (coeff : option (list complex))
    (x t : R) :
  let psi := WaveFunction.init Q hs (HilbertSpace.init dim basis V)
               initWaveFunc coeff in
  (14 <= x ->
   WaveFunction.evaluate_at psi x t = WaveFunction.evaluate_at psi 14 t)
  /\ (x <= -15 ->
      WaveFunction.evaluate_at psi x t = WaveFunction.evaluate_at psi (-15) t).
Proof.
  intros psi. split; intros Hx; apply evaluate_same_index; intros s Hmin Hmax.
  - rewrite (index_above s x) by (rewrite Hmax; lra).
    rewrite (index_above s 14) by (rewrite Hmax; lra). reflexivity.
  - rewrite (index_below s x) by (rewrite Hmin; lra).
    rewrite Hmin. reflexivity.
Qed.

(** X22.  The phase factor of a mode is a unit-modulus homomorphism in the
    time: it is 1 at t = 0, [phaseFactor(n, s + t)] is
    [phaseFactor(n, s) * phaseFactor(n, t)], and its modulus is 1. *)
Theorem phaseFactor_homomorphism (dim : nat) (V : option (R -> R)) (n : nat) :
  exists p : R -> complex,
    (forall t,
       WaveFunction.phaseFactor (HilbertSpace.init dim "QHO" V) n t = Ok (p t))
    /\ p 0 = RtoC 1
    /\ (forall s t, p (s + t) = Cmult (p s) (p t))
    /\ (forall t, Cmod (p t) = 1).
Proof.
  exists (fun t => Cexp (Cmult (Cmult (Copp Ci) (RtoC (INR n + 1 / 2))) (RtoC t))).
  split; [intros t; apply phaseFactor_QHO|].
  split; [apply Cexp_phase_0|].
  split.
  - intros s t. rewrite !Cexp_phase. unfold Cmult; cbn [fst snd].
    replace (- ((INR n + 1 / 2) * (s + t)))
      with (- ((INR n + 1 / 2) * s) + - ((INR n + 1 / 2) * t)) by ring.
    rewrite cos_plus, sin_plus. f_equal; ring.
  - intros t. rewrite Cexp_phase. unfold Cmod; cbn [fst snd].
    pose proof (sin2_cos2 (- ((INR n + 1 / 2) * t))) as H. unfold Rsqr in H.
    replace (cos (- ((INR n + 1 / 2) * t)) ^ 2 + sin (- ((INR n + 1 / 2) * t)) ^ 2)
      with 1 by (simpl; lra).
    apply sqrt_1.
Qed.

Lemma Cmod_mult_unit_l (u z : complex) :
  fst u ^ 2 + snd u ^ 2 = 1 -> Cmod (Cmult u z) = Cmod z.
Proof.
  intros H. destruct u as [c s]. cbn [fst snd] in H.
  rewrite <- (Cmod_mult_unit z c s H). f_equal.
  unfold Cmult; cbn [fst snd]. f_equal; ring.
Qed.

Lemma spectral_raw_scaled (u : complex) (dim : nat) (c : nat -> complex)
    (eb : nat -> R -> R) (x t : R) :
  spectral_raw dim (fun n => Cmult u (c n)) eb x t
  = Cmult u (spectral_raw dim c eb x t).
Proof.
  unfold spectral_raw. induction dim as [|dim IH].
  - cbn [Csum]. unfold Cmult, RtoC; cbn [fst snd]. f_equal; ring.
  - cbn [Csum]. rewrite IH.
    set (S := Csum _ dim). set (e := RtoC (eb dim x)).
    set (p := Cexp _).
    unfold Cplus, Cmult; cbn [fst snd]. f_equal; ring.
Qed.

(** X23.  A global phase on the coefficients is a global phase on the wave
    function: multiplying every coefficient by a complex number u of
    modulus 1 leaves the normalization unchanged and multiplies every
    value of the evaluator by u. *)
Theorem global_phase (Q : Quadrature) (hs : HilbertSpace.t) (dim : nat)
    (V : option (R -> R)) (initWaveFunc : option (R -> R))
    (coeff : list complex) (u : complex) (x t : R) :
  length coeff = dim ->
  fst u ^ 2 + snd u ^ 2 = 1 ->
  exists v,
    WaveFunction.evaluate_at
      (WaveFunction.init Q hs (HilbertSpace.init dim "QHO" V) initWaveFunc
         (Some coeff)) x t = Ok v
    /\ WaveFunction.evaluate_at
         (WaveFunction.init Q hs (HilbertSpace.init dim "QHO" V) initWaveFunc
            (Some (map (Cmult u) coeff))) x t = Ok (Cmult u v).
Proof.
  intros Hlen Hu.
  destruct (init_explicit Q hs dim V initWaveFunc coeff)
    as [wf1 [Hi1 [_ [_ He1]]]]; [lia|].
  destruct (init_explicit Q hs dim V initWaveFunc (map (Cmult u) coeff))
    as [wf2 [Hi2 [_ [_ He2]]]]; [rewrite length_map; lia|].
  eexists. rewrite Hi1, Hi2. unfold WaveFunction.evaluate_at.
  rewrite !bind_Ok, He1, He2. split; [reflexivity|]. f_equal.
  set (H := HilbertSpace.init dim "QHO" V).
  rewrite (spectral_evaluate_ext Q dim
             (fun n => nth n (map (Cmult u) coeff) (RtoC 0))
             (fun n => Cmult u (nth n coeff (RtoC 0))))
    by (intros n Hn; apply nth_map_default; lia).
  unfold spectral_evaluate, spectral_normF.
  replace (fun x0 =>
             Cmod (spectral_raw dim (fun n => Cmult u (nth n coeff (RtoC 0)))
                     (eigenbasis_value H) x0 0) ^ 2)
    with (fun x0 =>
            Cmod (spectral_raw dim (fun n => nth n coeff (RtoC 0))
                    (eigenbasis_value H) x0 0) ^ 2).
  - rewrite spectral_raw_scaled. unfold Cdiv.
    set (r := spectral_raw dim _ _ x t). set (N := Cinv _).
    unfold Cmult; cbn [fst snd]. f_equal; ring.
  - apply functional_extensionality. intros x0.
    rewrite spectral_raw_scaled, Cmod_mult_unit_l by exact Hu. reflexivity.
Qed.

Lemma global_phase_witness :
  length [RtoC 1; RtoC 1] = 2%nat
  /\ fst Ci ^ 2 + snd Ci ^ 2 = 1
  /\ exists v,
       WaveFunction.evaluate_at
         (WaveFunction.init three_point_rule (HilbertSpace.init 2 "QHO" None)
            (HilbertSpace.init 2 "QHO" None) None (Some [RtoC 1; RtoC 1]))
         0 0 = Ok v
       /\ WaveFunction.evaluate_at
            (WaveFunction.init three_point_rule (HilbertSpace.init 2 "QHO" None)
               (HilbertSpace.init 2 "QHO" None) None
               (Some (map (Cmult Ci) [RtoC 1; RtoC 1])))
            0 0 = Ok (Cmult Ci v).
Proof.
  assert (H1 : length [RtoC 1; RtoC 1] = 2%nat) by reflexivity.
  assert (H2 : fst Ci ^ 2 + snd Ci ^ 2 = 1) by (simpl; lra).
  split; [exact H1|]. split; [exact H2|].
  apply (global_phase three_point_rule (HilbertSpace.init 2 "QHO" None) 2
           None None [RtoC 1; RtoC 1] Ci 0 0 H1 H2).
Defined.
